(** * JOB-CHOMMIE: the ingestion cycle and the listing query

    A shallow embedding of [backend/models.py], [backend/serpapi_fetcher.py],
    [backend/scheduler.py] and the [/api/jobs] handler of [backend/app.py],
    followed by the properties of the ingestion-and-deduplication pipeline.

    Python objects that come out of [r.json()] are kept as a small value
    type; the SQLAlchemy session is an explicit record (committed tables,
    rows INSERTed in the open transaction, objects added but not yet
    flushed); exceptions are an outcome of every effectful step. *)

From Stdlib Require Import ZArith Lia Ascii String.
From stdpp Require Import base list strings sorting.

Local Open Scope Z_scope.
Local Open Scope string_scope.
Local Open Scope list_scope.

(** ** Python values and exceptions *)

#[local] Set Warnings "-register-all".

(** What [r.json()] can hand to the fetcher.  Numbers and booleans are left
    out: how a [String] column binds them depends on the database driver. *)
Inductive pyval : Type :=
| PNone
| PStr (s : string)
| PList (items : list pyval)
| PDict (fields : list (string * pyval)).

Inductive exn : Type :=
| AttributeError      (* [.get] on something that is not a dict *)
| TypeError           (* iterating [None] *)
| RequestException    (* [requests.get]: timeout, connection error *)
| JSONDecodeError     (* [r.json()] on a body that is not JSON *)
| StatementError      (* a parameter the driver cannot bind *)
| IntegrityError      (* NOT NULL constraint failed *)
| OperationalError.   (* the COMMIT itself failed *)

Inductive outcome (A : Type) : Type :=
| Returned (a : A)
| Raised (e : exn).
Arguments Returned {A} a.
Arguments Raised {A} e.

Definition returned {A} (o : outcome A) : bool :=
  match o with Returned _ => true | Raised _ => false end.

(** The first binding of a key, as [dict.__getitem__] finds it. *)
Fixpoint dict_lookup (k : string) (fields : list (string * pyval)) : option pyval :=
  match fields with
  | [] => None
  | (k', v) :: rest => if decide (k' = k) then Some v else dict_lookup k rest
  end.

(** [o.get(k, default)]; [o.get(k)] is [py_get o k PNone]. *)
Definition py_get (o : pyval) (k : string) (default : pyval) : outcome pyval :=
  match o with
  | PDict fields => Returned (from_option id default (dict_lookup k fields))
  | _ => Raised AttributeError
  end.

(** The items a [for] loop draws from a value: the elements of a list, the
    keys of a dict, the characters of a string. *)
Fixpoint chars (s : string) : list pyval :=
  match s with
  | EmptyString => []
  | String c rest => PStr (String c EmptyString) :: chars rest
  end.

Definition py_iter (o : pyval) : outcome (list pyval) :=
  match o with
  | PNone => Raised TypeError
  | PStr s => Returned (chars s)
  | PList items => Returned items
  | PDict fields => Returned (map (λ kv, PStr kv.1) fields)
  end.

(** ** models.py *)

(** A row of table [jobs].  [title] is declared [nullable=False]; the
    column is still an option here because the Python object may carry
    [None], and it is the INSERT that rejects it. *)
Record Job : Type := {
  id : Z;
  title : option string;
  company : option string;
  location : option string;
  description : option string;
  url : option string;
  date_posted : option string;
  created_at : Z
}.

(** A row of table [scheduled_runs]; [success] is an Integer column,
    1 = True, 0 = False. *)
Record ScheduledRun : Type := {
  run_id : Z;
  run_time : Z;
  api_calls_made : Z;
  success : Z
}.

Record database : Type := {
  jobs : list Job;
  scheduled_runs : list ScheduledRun
}.

(** The deduplication key of a listing. *)
Definition dedup_key : Type := option string * option string * option string.

Definition job_key (j : Job) : dedup_key := (title j, company j, location j).

(** A [Job(...)] instance as the fetcher builds it: the keyword arguments
    as given, no [id] and no [created_at] yet. *)
Record JobInstance : Type := {
  kw_title : pyval;
  kw_company : pyval;
  kw_location : pyval;
  kw_description : pyval;
  kw_url : pyval;
  kw_date_posted : pyval
}.

(** A [ScheduledRun(...)] instance before it is flushed. *)
Record RunInstance : Type := {
  kw_run_time : Z;
  kw_api_calls_made : Z;
  kw_success : Z
}.

(** ** The session *)

(** [stored] is what is committed; [flushed_*] are rows INSERTed in the
    open transaction; [new_*] are instances passed to [db.add] that no
    flush has written yet, oldest first. *)
Record Session : Type := {
  stored : database;
  flushed_jobs : list Job;
  flushed_runs : list ScheduledRun;
  new_jobs : list JobInstance;
  new_runs : list RunInstance
}.

Definition SessionLocal (d : database) : Session :=
  {| stored := d; flushed_jobs := []; flushed_runs := [];
     new_jobs := []; new_runs := [] |}.

(** What a query inside the transaction sees. *)
Definition visible_jobs (s : Session) : list Job := jobs (stored s) ++ flushed_jobs s.
Definition visible_runs (s : Session) : list ScheduledRun :=
  scheduled_runs (stored s) ++ flushed_runs s.

(** A text parameter: [None] is NULL, a string is itself, a list or a dict
    cannot be bound. *)
Definition bind_text (v : pyval) : option (option string) :=
  match v with
  | PNone => Some None
  | PStr s => Some (Some s)
  | _ => None
  end.

(** Integer primary key: one more than the largest in the table. *)
Definition next_id (ids : list Z) : Z := 1 + foldr Z.max 0 ids.

(** INSERT of one instance at time [now] into a table holding [rows]. *)
Definition insert_job (now : Z) (rows : list Job) (p : JobInstance) : outcome Job :=
  match bind_text (kw_title p), bind_text (kw_company p), bind_text (kw_location p),
        bind_text (kw_description p), bind_text (kw_url p), bind_text (kw_date_posted p) with
  | Some t, Some c, Some l, Some d, Some u, Some dp =>
      match t with
      | None => Raised IntegrityError
      | Some _ =>
          Returned {| id := next_id (map id rows); title := t; company := c;
                      location := l; description := d; url := u;
                      date_posted := dp; created_at := now |}
      end
  | _, _, _, _, _, _ => Raised StatementError
  end.

Definition insert_run (rows : list ScheduledRun) (p : RunInstance) : ScheduledRun :=
  {| run_id := next_id (map run_id rows); run_time := kw_run_time p;
     api_calls_made := kw_api_calls_made p; success := kw_success p |}.

(** INSERT the pending instances in the order they were added; the result
    is the rows written. *)
Fixpoint insert_jobs (now : Z) (table : list Job) (ps : list JobInstance)
  : outcome (list Job) :=
  match ps with
  | [] => Returned []
  | p :: rest =>
      match insert_job now table p with
      | Returned j =>
          match insert_jobs now (table ++ [j]) rest with
          | Returned js => Returned (j :: js)
          | Raised e => Raised e
          end
      | Raised e => Raised e
      end
  end.

Fixpoint insert_runs (table : list ScheduledRun) (ps : list RunInstance)
  : list ScheduledRun :=
  match ps with
  | [] => []
  | p :: rest =>
      let r := insert_run table p in r :: insert_runs (table ++ [r]) rest
  end.

(** [session.rollback()]: the open transaction and the pending instances
    are gone, the committed tables stay. *)
Definition rollback (s : Session) : Session := SessionLocal (stored s).

(** [session.flush()]: a failed flush rolls the transaction back and
    raises. *)
Definition flush (now : Z) (s : Session) : outcome unit * Session :=
  match insert_jobs now (visible_jobs s) (new_jobs s) with
  | Returned rows =>
      (Returned (),
       {| stored := stored s;
          flushed_jobs := flushed_jobs s ++ rows;
          flushed_runs := flushed_runs s ++ insert_runs (visible_runs s) (new_runs s);
          new_jobs := []; new_runs := [] |})
  | Raised e => (Raised e, rollback s)
  end.

(** ** The process around the fetcher *)

(** One outbound HTTP request, as [requests.get] is called. *)
Record request : Type := {
  req_url : string;
  req_params : list (string * string);
  req_timeout : Z
}.

(** What the provider does with a request: nothing usable (timeout,
    connection error), or a response with a status and a body that may or
    may not parse as JSON. *)
Inductive http_reply : Type :=
| NoReply
| Reply (status : Z) (body : option pyval).

(** Everything the cycle takes from outside.  [autoflush] is the setting of
    [SessionLocal], made in [database.py]; the fetcher runs with either
    value, so it is an input here.  [latency] is how long the HTTP call
    takes; [commit_ok] says whether the database accepts the COMMIT. *)
Record world : Type := {
  SERPAPI_KEY : option string;
  JOB_SEARCH_QUERY : option string;
  autoflush : bool;
  reply : http_reply;
  latency : Z;
  commit_ok : bool
}.

Definition SEARCH_QUERY (w : world) : string :=
  default "software developer jobs south africa" (JOB_SEARCH_QUERY w).

Definition SERP_URL : string := "https://serpapi.com/search.json".

(** Python truth of [SERPAPI_KEY]: [None] and the empty string are false. *)
Definition truthy (k : option string) : bool :=
  match k with
  | None | Some "" => false
  | Some _ => true
  end.

Record runtime : Type := {
  clock : Z;
  requests_sent : list request;
  db : Session
}.

Definition with_db (s : Session) (rt : runtime) : runtime :=
  {| clock := clock rt; requests_sent := requests_sent rt; db := s |}.

(** State and exceptions: a step returns or raises, and leaves a state
    either way. *)
Definition M (A : Type) : Type := runtime → outcome A * runtime.

Definition ret {A} (a : A) : M A := λ rt, (Returned a, rt).
Definition raise {A} (e : exn) : M A := λ rt, (Raised e, rt).
Definition bind {A B} (m : M A) (k : A → M B) : M B :=
  λ rt, match m rt with
        | (Returned a, rt') => k a rt'
        | (Raised e, rt') => (Raised e, rt')
        end.
Definition lift {A} (o : outcome A) : M A := λ rt, (o, rt).

Notation "'do' x <- m ; k" := (bind m (λ x, k))
  (at level 10, x name, m at level 100, k at level 200).
Notation "'do_' m ; k" := (bind m (λ _, k))
  (at level 10, m at level 100, k at level 200).

(** [datetime.datetime.utcnow()]: the clock as it stands when the call is
    made. *)
Definition utcnow : M Z := λ rt, (Returned (clock rt), rt).

(** [requests.get(url, params=..., timeout=...)]: the request goes out, the
    call takes [latency w], and either raises or returns the response.  It
    is the only step that lets the clock advance. *)
Definition requests_get (w : world) (u : string) (params : list (string * string))
    (timeout : Z) : M (Z * option pyval) :=
  λ rt,
    let rt' := {| clock := clock rt + latency w;
                  requests_sent := requests_sent rt ++
                    [{| req_url := u; req_params := params; req_timeout := timeout |}];
                  db := db rt |} in
    match reply w with
    | NoReply => (Raised RequestException, rt')
    | Reply status body => (Returned (status, body), rt')
    end.

(** [r.json()] *)
Definition json (r : Z * option pyval) : M pyval :=
  match r.2 with
  | Some v => ret v
  | None => raise JSONDecodeError
  end.

Definition db_flush : M unit :=
  λ rt, let '(o, s) := flush (clock rt) (db rt) in (o, with_db s rt).

Definition key_matches (k : dedup_key) (j : Job) : bool := bool_decide (job_key j = k).

(** [db.query(Job).filter_by(title=t, company=c, location=l).first()]:
    pending instances are flushed first when the session autoflushes;
    [filter_by] with [None] compares with IS NULL. *)
Definition query_first_job (w : world) (t c l : pyval) : M (option Job) :=
  do_ (if autoflush w then db_flush else ret ());
  match bind_text t, bind_text c, bind_text l with
  | Some t', Some c', Some l' =>
      λ rt, (Returned (find (key_matches (t', c', l')) (visible_jobs (db rt))), rt)
  | _, _, _ => raise StatementError
  end.

Definition db_add_job (j : JobInstance) : M unit :=
  λ rt, let s := db rt in
        (Returned (),
         with_db {| stored := stored s; flushed_jobs := flushed_jobs s;
                    flushed_runs := flushed_runs s;
                    new_jobs := new_jobs s ++ [j]; new_runs := new_runs s |} rt).

Definition db_add_run (r : RunInstance) : M unit :=
  λ rt, let s := db rt in
        (Returned (),
         with_db {| stored := stored s; flushed_jobs := flushed_jobs s;
                    flushed_runs := flushed_runs s;
                    new_jobs := new_jobs s; new_runs := new_runs s ++ [r] |} rt).

(** [db.commit()]: flush, then COMMIT; when the database refuses, the
    transaction is rolled back and the error raised. *)
Definition db_commit (w : world) : M unit :=
  do_ db_flush;
  λ rt, let s := db rt in
        if commit_ok w then
          (Returned (),
           with_db (SessionLocal {| jobs := visible_jobs s;
                                    scheduled_runs := visible_runs s |}) rt)
        else (Raised OperationalError, with_db (rollback s) rt).

(** [db.close()] *)
Definition db_close : M unit := λ rt, (Returned (), with_db (rollback (db rt)) rt).

(** ** serpapi_fetcher.py *)

(** The arguments of [filter_by] (lines 26-28). *)
Definition lookup_args (job : pyval) : outcome (pyval * pyval * pyval) :=
  match py_get job "title" PNone with
  | Raised e => Raised e
  | Returned t =>
      match py_get job "company_name" PNone with
      | Raised e => Raised e
      | Returned c =>
          match py_get job "location" PNone with
          | Raised e => Raised e
          | Returned l => Returned (t, c, l)
          end
      end
  end.

(** The [Job(...)] call of lines 31-38; [detected_extensions] defaults to
    an empty dict, and whatever is found there is asked for its [link]. *)
Definition job_instance (job : pyval) : outcome JobInstance :=
  match py_get job "title" PNone, py_get job "company_name" PNone,
        py_get job "location" PNone, py_get job "description" PNone,
        py_get job "detected_extensions" (PDict []) with
  | Returned t, Returned c, Returned l, Returned d, Returned ext =>
      match py_get ext "link" PNone, py_get job "published_at" PNone with
      | Returned u, Returned dp =>
          Returned {| kw_title := t; kw_company := c; kw_location := l;
                      kw_description := d; kw_url := u; kw_date_posted := dp |}
      | _, _ => Raised AttributeError
      end
  | _, _, _, _, _ => Raised AttributeError
  end.

(** One pass of the body of [for job in results] (lines 26-40). *)
Definition store_candidate (w : world) (job : pyval) (saved : Z) : M Z :=
  do args <- lift (lookup_args job);
  do exists_ <- query_first_job w args.1.1 args.1.2 args.2;
  match exists_ with
  | Some _ => ret saved
  | None =>
      do j <- lift (job_instance job);
      do_ db_add_job j;
      ret (saved + 1)
  end.

Fixpoint store_candidates (w : world) (results : list pyval) (saved : Z) : M Z :=
  match results with
  | [] => ret saved
  | job :: rest =>
      do saved' <- store_candidate w job saved;
      store_candidates w rest saved'
  end.

(** The function returns the number it logs, so that it can be stated;
    [None] is the early return without a fetch.  The two [logger] calls
    write nothing that is modelled. *)
Definition fetch_and_store_jobs (w : world) : M (option Z) :=
  if negb (truthy (SERPAPI_KEY w)) then ret None
  else
    let params := [("engine", "google_jobs"); ("q", SEARCH_QUERY w);
                   ("api_key", default "" (SERPAPI_KEY w)); ("num", "100")] in
    do r <- requests_get w SERP_URL params 30;
    do data <- json r;
    do results <- lift (py_get data "jobs_results" (PList []));
    do items <- lift (py_iter results);
    do saved <- store_candidates w items 0;
    do now <- utcnow;
    do_ db_add_run {| kw_run_time := now; kw_api_calls_made := 1; kw_success := 1 |};
    do_ db_commit w;
    ret (Some saved).

(** ** scheduler.py *)

(** What outlives a cycle: the committed tables, the clock, the requests
    that went out. *)
Record process : Type := {
  tables : database;
  time : Z;
  sent : list request
}.

(** [serpapi_job]: a fresh session, the fetch, and [db.close()] in the
    [finally] clause whether it returned or raised. *)
Definition serpapi_job (w : world) (p : process) : outcome (option Z) * process :=
  let rt := {| clock := time p; requests_sent := sent p; db := SessionLocal (tables p) |} in
  let '(o, rt1) := fetch_and_store_jobs w rt in
  let '(_, rt2) := db_close rt1 in
  (o, {| tables := stored (db rt2); time := clock rt2; sent := requests_sent rt2 |}).

(** ** app.py: the listing query *)

(** [str.lower()] as it acts on ASCII text: the letters A to Z are folded,
    every other byte is kept (see [is_ascii]). *)
Definition lower_ascii (c : ascii) : ascii :=
  let n := N_of_ascii c in
  if ((65 <=? n) && (n <=? 90))%N then ascii_of_N (n + 32) else c.

Fixpoint lower (s : string) : string :=
  match s with
  | EmptyString => EmptyString
  | String c rest => String (lower_ascii c) (lower rest)
  end.

(** SQL [LIKE] without an escape character: [%] stands for any run of
    characters, [_] for any one character. *)
Fixpoint like (pattern : string) : string → bool :=
  match pattern with
  | EmptyString => λ text, match text with EmptyString => true | _ => false end
  | String p rest =>
      if Ascii.eqb p "%" then
        fix any (text : string) : bool :=
          like rest text ||
          match text with
          | EmptyString => false
          | String _ text' => any text'
          end
      else if Ascii.eqb p "_" then
        λ text, match text with
                | EmptyString => false
                | String _ text' => like rest text'
                end
      else
        λ text, match text with
                | EmptyString => false
                | String c text' => Ascii.eqb p c && like rest text'
                end
  end.

(** [Job.title.ilike(pattern)]: both sides lower-cased; NULL matches
    nothing. *)
Definition ilike (column : option string) (pattern : string) : bool :=
  match column with
  | Some text => like (lower pattern) (lower text)
  | None => false
  end.

(** [ORDER BY created_at DESC], as a stable insertion sort; the order of
    rows with equal timestamps is the engine's choice. *)
Fixpoint insert_desc (j : Job) (sorted : list Job) : list Job :=
  match sorted with
  | [] => [j]
  | j' :: rest =>
      if (created_at j' <=? created_at j)%Z then j :: sorted
      else j' :: insert_desc j rest
  end.

Definition order_by_created_at_desc (rows : list Job) : list Job :=
  foldr insert_desc [] rows.

(** The query string, [page] and [limit] already through [int()]. *)
Record request_args : Type := {
  arg_q : option string;
  arg_page : option Z;
  arg_limit : option Z
}.

Record item : Type := {
  item_id : Z;
  item_title : option string;
  item_company : option string;
  item_location : option string;
  item_description : option string;
  item_url : option string;
  item_date_posted : option string
}.

Record listing : Type := {
  data : list item;
  total : Z;
  page : Z
}.

Definition item_of (j : Job) : item :=
  {| item_id := id j; item_title := title j; item_company := company j;
     item_location := location j; item_description := description j;
     item_url := url j; item_date_posted := date_posted j |}.

(** [list_jobs]; a negative OFFSET or LIMIT is treated differently by
    different engines and gives no result here. *)
Definition list_jobs (table : list Job) (args : request_args) : option listing :=
  let q := lower (default "" (arg_q args)) in
  let page := default 1 (arg_page args) in
  let limit := default 20 (arg_limit args) in
  let offset := (page - 1) * limit in
  let query :=
    if bool_decide (q = "") then table
    else filter (λ j, ilike (title j) ("%" +:+ q +:+ "%")) table in
  let total := Z.of_nat (length query) in
  if ((offset <? 0) || (limit <? 0))%Z then None
  else
    let rows := take (Z.to_nat limit)
                     (drop (Z.to_nat offset) (order_by_created_at_desc query)) in
    Some {| data := map item_of rows; total := total; page := page |}.

(** ** Sample inputs *)

Definition posting (t c l d : string) : pyval :=
  PDict [("title", PStr t); ("company_name", PStr c); ("location", PStr l);
         ("description", PStr d);
         ("detected_extensions", PDict [("link", PStr "https://jobs.example/1")]);
         ("published_at", PStr "2 days ago")].

Definition backend_posting : pyval :=
  posting "Backend Engineer" "Acme" "Cape Town" "Build the API".

(** The same posting with another description. *)
Definition backend_reposting : pyval :=
  posting "Backend Engineer" "Acme" "Cape Town" "Build and run the API".

Definition analyst_posting : pyval :=
  posting "Data Analyst" "Umoja" "Durban" "Weekly reports".

Definition tester_posting : pyval :=
  posting "QA Tester" "Acme" "Remote" "Break the API".

(** A posting without a title. *)
Definition untitled_posting : pyval := PDict [("company_name", PStr "Acme")].

(** A provider that answers 200 with the given [jobs_results] after two
    time units, in front of a database that accepts commits. *)
Definition provider (af : bool) (items : list pyval) : world :=
  {| SERPAPI_KEY := Some "secret"; JOB_SEARCH_QUERY := None; autoflush := af;
     reply := Reply 200 (Some (PDict [("jobs_results", PList items)]));
     latency := 2; commit_ok := true |}.

(** A provider that does not answer in time. *)
Definition silent_provider (af : bool) : world :=
  {| SERPAPI_KEY := Some "secret"; JOB_SEARCH_QUERY := None; autoflush := af;
     reply := NoReply; latency := 30; commit_ok := true |}.

(** No credential in the environment. *)
Definition unconfigured (af : bool) : world :=
  {| SERPAPI_KEY := None; JOB_SEARCH_QUERY := None; autoflush := af;
     reply := Reply 200 (Some (PDict [("jobs_results", PList [backend_posting])]));
     latency := 2; commit_ok := true |}.

(** A database that refuses the commit. *)
Definition refusing (af : bool) (items : list pyval) : world :=
  {| SERPAPI_KEY := Some "secret"; JOB_SEARCH_QUERY := None; autoflush := af;
     reply := Reply 200 (Some (PDict [("jobs_results", PList items)]));
     latency := 2; commit_ok := false |}.

(** Empty tables at time 100. *)
Definition fresh : process :=
  {| tables := {| jobs := []; scheduled_runs := [] |}; time := 100; sent := [] |}.

Definition listing_row (i : Z) (t : string) (ts : Z) : Job :=
  {| id := i; title := Some t; company := Some "Acme"; location := Some "Cape Town";
     description := None; url := None; date_posted := None; created_at := ts |}.

(** ** Vocabulary of the statements *)

Definition keys (l : list Job) : list dedup_key := map job_key l.

(** The key a candidate is looked up by, when it has one: it must be a
    dict whose three key fields are strings or absent. *)
Definition candidate_key (job : pyval) : option dedup_key :=
  match lookup_args job with
  | Returned (t, c, l) =>
      match bind_text t, bind_text c, bind_text l with
      | Some t', Some c', Some l' => Some (t', c', l')
      | _, _, _ => None
      end
  | Raised _ => None
  end.

(** Row [r] carries the fields of candidate [job]. *)
Definition row_from (job : pyval) (r : Job) : Prop :=
  ∃ inst, job_instance job = Returned inst ∧
    bind_text (kw_title inst) = Some (title r) ∧
    bind_text (kw_company inst) = Some (company r) ∧
    bind_text (kw_location inst) = Some (location r) ∧
    bind_text (kw_description inst) = Some (description r) ∧
    bind_text (kw_url inst) = Some (url r) ∧
    bind_text (kw_date_posted inst) = Some (date_posted r).

(** The candidates the loop runs over, when the fetch yields any. *)
Definition candidates (w : world) : option (list pyval) :=
  match reply w with
  | Reply _ (Some data) =>
      match py_get data "jobs_results" (PList []) with
      | Returned results =>
          match py_iter results with
          | Returned items => Some items
          | Raised _ => None
          end
      | Raised _ => None
      end
  | _ => None
  end.

(** The table [jobs] as it stands once everything pending is written. *)
Definition settled (now : Z) (s : Session) : option (list Job) :=
  match insert_jobs now (visible_jobs s) (new_jobs s) with
  | Returned rows => Some (visible_jobs s ++ rows)
  | Raised _ => None
  end.

(** What a pass over [results] adds to a table [W]: every added row comes
    from a candidate whose key was not in [base]; with autoflush no key is
    added twice nor was in [W]; every candidate's key ends up present. *)
Record grown (w : world) (now : Z) (base : list Job) (results : list pyval)
    (W added : list Job) : Prop := {
  grown_rows :
    Forall (λ r, ∃ job, job ∈ results ∧ row_from job r ∧
                 candidate_key job = Some (job_key r) ∧ is_Some (title r) ∧
                 created_at r = now ∧ job_key r ∉ keys base) added;
  grown_once :
    autoflush w = true → NoDup (keys added) ∧ ∀ k, k ∈ keys added → k ∉ keys W;
  grown_covered :
    ∀ job, job ∈ results → ∃ k, candidate_key job = Some k ∧ k ∈ keys (W ++ added)
}.

(** The request the fetcher sends. *)
Definition the_request (w : world) : request :=
  {| req_url := SERP_URL;
     req_params := [("engine", "google_jobs"); ("q", SEARCH_QUERY w);
                    ("api_key", default "" (SERPAPI_KEY w)); ("num", "100")];
     req_timeout := 30 |}.

(** The Ingestion Run record a successful cycle writes. *)
Definition the_run (w : world) (p : process) : ScheduledRun :=
  {| run_id := next_id (map run_id (scheduled_runs (tables p)));
     run_time := time p + latency w; api_calls_made := 1; success := 1 |}.

(** A step keeps the store when, returning or raising, it leaves the
    committed tables, the clock and the requests sent as they were. *)
Definition keeps {A} (m : M A) : Prop :=
  ∀ rt o rt', m rt = (o, rt') →
    stored (db rt') = stored (db rt) ∧ clock rt' = clock rt ∧
    requests_sent rt' = requests_sent rt.

(** A step is atomic when a raise leaves the committed tables as they
    were. *)
Definition atomic {A} (m : M A) : Prop :=
  ∀ rt o rt', m rt = (o, rt') →
    clock rt' = clock rt ∧ requests_sent rt' = requests_sent rt ∧
    (returned o = false → stored (db rt') = stored (db rt)).

(** A listing with its timestamp blanked; two sessions are alike when they
    hold the same listings up to timestamps and the same pending
    instances. *)
Definition untimed (j : Job) : Job :=
  {| id := id j; title := title j; company := company j; location := location j;
     description := description j; url := url j; date_posted := date_posted j;
     created_at := 0 |}.

Definition alike (s1 s2 : Session) : Prop :=
  map untimed (jobs (stored s1)) = map untimed (jobs (stored s2)) ∧
  map untimed (flushed_jobs s1) = map untimed (flushed_jobs s2) ∧
  new_jobs s1 = new_jobs s2.

(** Two runs agree when they both return related values or both raise the
    same exception, and leave sessions that are alike. *)
Definition agree {A} (R : A → A → Prop) (x y : outcome A * runtime) : Prop :=
  alike (db x.2) (db y.2) ∧
  match x.1, y.1 with
  | Returned a, Returned b => R a b
  | Raised e, Raised e' => e = e'
  | _, _ => False
  end.

Definition similar {A} (R : A → A → Prop) (m1 m2 : M A) : Prop :=
  ∀ rt1 rt2, alike (db rt1) (db rt2) → agree R (m1 rt1) (m2 rt2).

Definition any {A} (_ _ : A) : Prop := True.

(** Two lookups hit or miss together. *)
Definition same_hit (a b : option Job) : Prop := is_Some a ↔ is_Some b.

(** A text without the wildcards of [LIKE]. *)
Fixpoint plain (s : string) : bool :=
  match s with
  | EmptyString => true
  | String c rest => negb (Ascii.eqb c "%") && negb (Ascii.eqb c "_") && plain rest
  end.

(** [q] occurs somewhere in [text]. *)
Definition substring (q text : string) : Prop :=
  ∃ before after, text = before +:+ q +:+ after.



(** ** repositories/base_repository.py *)

(** [BaseRepository.session_scope], with [SessionLocal] as the session
    factory and [body] as the block under [with]: commit when the block
    returns; on any exception, that of the commit included, roll back and
    raise it again; close in either case. *)
Definition session_scope {A} (w : world) (body : M A) (p : process)
  : outcome A * process :=
  let rt := {| clock := time p; requests_sent := sent p; db := SessionLocal (tables p) |} in
  let '(o, rt1) :=
    match body rt with
    | (Returned a, rt1) =>
        match db_commit w rt1 with
        | (Returned _, rt2) => (Returned a, rt2)
        | (Raised e, rt2) => (Raised e, with_db (rollback (db rt2)) rt2)
        end
    | (Raised e, rt1) => (Raised e, with_db (rollback (db rt1)) rt1)
    end in
  let '(_, rt2) := db_close rt1 in
  (o, {| tables := stored (db rt2); time := clock rt2; sent := requests_sent rt2 |}).

(** [BaseRepository.add] for a [Job]. *)
Definition repository_add (entity : JobInstance) : M unit := db_add_job entity.

(** [BaseRepository.list_all] for [Job]: [query.offset(skip).limit(limit).all()],
    rows in table order.  [skip] and [limit] are naturals: what a negative
    OFFSET or LIMIT does is the engine's affair. *)
Definition repository_list_all (w : world) (skip limit : nat) : M (list Job) :=
  do_ (if autoflush w then db_flush else ret ());
  λ rt, (Returned (take limit (drop skip (visible_jobs (db rt)))), rt).

(** ** Vocabulary of the further properties *)

(** The rows the query of [list_jobs] selects, before ordering and paging. *)
Definition selected (table : list Job) (q : option string) : list Job :=
  if bool_decide (lower (default "" q) = "") then table
  else filter (λ j, ilike (title j) ("%" +:+ lower (default "" q) +:+ "%")) table.

(** [a] may come before [b] in a page. *)
Definition newest_first (a b : Job) : Prop :=
  (created_at b ≤ created_at a)%Z.

(** The items of page [k] of size [L]; no items where [list_jobs] gives
    nothing. *)
Definition page_items (table : list Job) (q : option string) (k L : Z) : list item :=
  from_option data []
    (list_jobs table {| arg_q := q; arg_page := Some k; arg_limit := Some L |}).


(** The exception a cycle ends with when no list of candidates comes out
    of the provider's reply. *)
Definition fetch_error (w : world) : exn :=
  match reply w with
  | NoReply => RequestException
  | Reply _ None => JSONDecodeError
  | Reply _ (Some data) =>
      match py_get data "jobs_results" (PList []) with
      | Raised e => e
      | Returned _ => TypeError
      end
  end.

(** Out of the candidates' keys [ks], in their order, the keys that get a
    row: a key already [seen] is passed over; with autoflush a key counts
    as seen from its first row on. *)
Fixpoint admitted (af : bool) (seen ks : list dedup_key) : list dedup_key :=
  match ks with
  | [] => []
  | k :: rest =>
      if decide (k ∈ seen) then admitted af seen rest
      else k :: admitted af (if af then seen ++ [k] else seen) rest
  end.

(** [n] cycles in a row, as the scheduler fires them. *)
Definition cycles (n : nat) (w : world) (p : process) : process :=
  Nat.iter n (λ p, (serpapi_job w p).2) p.

(** The state a cycle leaves when it raises after its request. *)
Definition after_failure (w : world) (p : process) : process :=
  {| tables := tables p; time := time p + latency w;
     sent := sent p ++ [the_request w] |}.

(** The state a cycle leaves when it commits [added] and its run record. *)
Definition after_commit (w : world) (p : process) (added : list Job) : process :=
  {| tables := {| jobs := jobs (tables p) ++ added;
                  scheduled_runs := scheduled_runs (tables p) ++ [the_run w p] |};
     time := time p + latency w;
     sent := sent p ++ [the_request w] |}.

(** * Properties *)

(** ** The session primitives *)

Lemma insert_jobs_snoc now ps : ∀ table p,
  insert_jobs now table (ps ++ [p]) =
  match insert_jobs now table ps with
  | Returned rows =>
      match insert_job now (table ++ rows) p with
      | Returned j => Returned (rows ++ [j])
      | Raised e => Raised e
      end
  | Raised e => Raised e
  end.
Proof.
  induction ps as [|q ps IH]; intros table p; simpl.
  - rewrite app_nil_r. by destruct (insert_job now table p).
  - destruct (insert_job now table q) as [j|e]; [|done].
    rewrite IH. destruct (insert_jobs now (table ++ [j]) ps) as [rows|e]; [|done].
    simpl. rewrite <- app_assoc. simpl.
    by destruct (insert_job now (table ++ j :: rows) p).
Qed.

Lemma insert_job_row now table p j :
  insert_job now table p = Returned j →
  bind_text (kw_title p) = Some (title j) ∧
  bind_text (kw_company p) = Some (company j) ∧
  bind_text (kw_location p) = Some (location j) ∧
  bind_text (kw_description p) = Some (description j) ∧
  bind_text (kw_url p) = Some (url j) ∧
  bind_text (kw_date_posted p) = Some (date_posted j) ∧
  is_Some (title j) ∧ created_at j = now ∧ id j = next_id (map id table).
Proof.
  unfold insert_job. intros H.
  destruct (bind_text (kw_title p)) as [[t|]|]; try discriminate;
  destruct (bind_text (kw_company p)); try discriminate;
  destruct (bind_text (kw_location p)); try discriminate;
  destruct (bind_text (kw_description p)); try discriminate;
  destruct (bind_text (kw_url p)); try discriminate;
  destruct (bind_text (kw_date_posted p)); try discriminate.
  injection H as <-. simpl. eauto 10.
Qed.

Lemma flush_returned now s s' :
  flush now s = (Returned (), s') →
  stored s' = stored s ∧ new_jobs s' = [] ∧
  settled now s = Some (visible_jobs s') ∧ settled now s' = Some (visible_jobs s').
Proof.
  unfold flush, settled. destruct (insert_jobs now (visible_jobs s) (new_jobs s)) as [rows|e]; [|done].
  intros [= <-]. simpl. unfold visible_jobs. simpl. rewrite app_assoc, app_nil_r. done.
Qed.

Lemma flush_raised now s e s' :
  flush now s = (Raised e, s') → settled now s = None ∧ s' = rollback s.
Proof.
  unfold flush, settled. destruct (insert_jobs now (visible_jobs s) (new_jobs s)) as [rows|e']; [done|].
  by intros [= <- <-].
Qed.

Lemma find_key_Some k l j : find (key_matches k) l = Some j → k ∈ keys l.
Proof.
  intros H. apply find_some in H as [Hin Hk].
  unfold key_matches in Hk. apply bool_decide_eq_true in Hk as <-.
  apply list_elem_of_fmap. exists j. split; [done|]. by apply list_elem_of_In.
Qed.

Lemma find_key_None k l : find (key_matches k) l = None → k ∉ keys l.
Proof.
  intros H Hin. apply list_elem_of_fmap in Hin as (j & -> & Hj).
  apply list_elem_of_In in Hj. pose proof (find_none _ _ H _ Hj) as Hk.
  unfold key_matches in Hk. by apply bool_decide_eq_false in Hk.
Qed.

Lemma settled_visible now s W :
  settled now s = Some W → ∃ rows, W = visible_jobs s ++ rows.
Proof.
  unfold settled. destruct (insert_jobs _ _ _) as [rows|]; [|done].
  intros [= <-]. eauto.
Qed.

Lemma settled_add now s j W' :
  settled now {| stored := stored s; flushed_jobs := flushed_jobs s;
                 flushed_runs := flushed_runs s;
                 new_jobs := new_jobs s ++ [j]; new_runs := new_runs s |} = Some W' →
  ∃ W r, settled now s = Some W ∧ insert_job now W j = Returned r ∧ W' = W ++ [r].
Proof.
  unfold settled, visible_jobs. simpl. rewrite insert_jobs_snoc.
  destruct (insert_jobs _ _ (new_jobs s)) as [rows|]; [|done].
  destruct (insert_job _ _ j) as [r|] eqn:Hr; [|done].
  intros [= <-]. exists (jobs (stored s) ++ flushed_jobs s ++ rows), r.
  rewrite <- !app_assoc in *. done.
Qed.

Lemma lookup_args_instance job t c l :
  lookup_args job = Returned (t, c, l) →
  ∀ inst, job_instance job = Returned inst →
  kw_title inst = t ∧ kw_company inst = c ∧ kw_location inst = l.
Proof.
  unfold lookup_args, job_instance. intros Ha inst.
  destruct (py_get job "title" PNone); [|done].
  destruct (py_get job "company_name" PNone); [|done].
  destruct (py_get job "location" PNone); [|done].
  injection Ha as <- <- <-.
  destruct (py_get job "description" PNone); [|done].
  destruct (py_get job "detected_extensions" (PDict [])) as [ext|]; [|done].
  destruct (py_get ext "link" PNone); [|done].
  destruct (py_get job "published_at" PNone); [|done].
  by intros [= <-].
Qed.

Lemma bind_returned {A B} (m : M A) (k : A → M B) rt b rt' :
  bind m k rt = (Returned b, rt') →
  ∃ a rt1, m rt = (Returned a, rt1) ∧ k a rt1 = (Returned b, rt').
Proof.
  unfold bind. destruct (m rt) as [[a|e] rt1]; [eauto|done].
Qed.

Lemma lift_returned {A} (o : outcome A) rt a rt' :
  lift o rt = (Returned a, rt') → o = Returned a ∧ rt' = rt.
Proof. by intros [= -> ->]. Qed.

Lemma db_flush_returned rt u rt' :
  db_flush rt = (Returned u, rt') →
  flush (clock rt) (db rt) = (Returned (), db rt') ∧
  clock rt' = clock rt ∧ requests_sent rt' = requests_sent rt.
Proof.
  unfold db_flush. destruct (flush _ _) as [o s]. intros [= -> <-].
  by destruct u.
Qed.

Lemma query_first_job_returned w t c l rt o rt' :
  query_first_job w t c l rt = (Returned o, rt') →
  ∃ k, bind_text t = Some k.1.1 ∧ bind_text c = Some k.1.2 ∧ bind_text l = Some k.2 ∧
    o = find (key_matches k) (visible_jobs (db rt')) ∧
    clock rt' = clock rt ∧ requests_sent rt' = requests_sent rt ∧
    ((autoflush w = false ∧ rt' = rt) ∨
     (autoflush w = true ∧ flush (clock rt) (db rt) = (Returned (), db rt'))).
Proof.
  unfold query_first_job. intros (u & rt1 & Hf & H)%bind_returned.
  destruct (bind_text t) as [t'|]; [|done].
  destruct (bind_text c) as [c'|]; [|done].
  destruct (bind_text l) as [l'|]; [|done].
  injection H as <- <-. exists (t', c', l'). simpl.
  destruct (autoflush w).
  - apply db_flush_returned in Hf as (? & ? & ?). split_and!; try done. by right.
  - unfold ret in Hf. injection Hf as _ <-. split_and!; try done. by left.
Qed.

Lemma store_candidate_returned w job saved rt n rt' :
  store_candidate w job saved rt = (Returned n, rt') →
  clock rt' = clock rt ∧ requests_sent rt' = requests_sent rt ∧
  stored (db rt') = stored (db rt) ∧
  (∃ ext, visible_jobs (db rt') = (visible_jobs (db rt) ++ ext)%list) ∧
  (new_runs (db rt) = [] →
     new_runs (db rt') = [] ∧ flushed_runs (db rt') = flushed_runs (db rt)) ∧
  ∃ k, candidate_key job = Some k ∧
   ∀ W', settled (clock rt) (db rt') = Some W' →
     ∃ W, settled (clock rt) (db rt) = Some W ∧
      ((W' = W ∧ k ∈ keys W ∧ n = saved) ∨
       (∃ r, W' = W ++ [r] ∧ row_from job r ∧ job_key r = k ∧ is_Some (title r) ∧
             created_at r = clock rt ∧ id r = next_id (map id W) ∧
             (k ∉ keys (visible_jobs (db rt))) ∧
             (autoflush w = true → k ∉ keys W) ∧ n = saved + 1)).
Proof.
  intros ([[t c] l] & rt0 & [Ha ->]%lift_returned & H)%bind_returned.
  apply bind_returned in H as (o & rt1 & Hq & H). simpl in Hq.
  apply query_first_job_returned in Hq as (k & Ht & Hc & Hl & -> & Hclk & Hreq & Hfl).
  assert (candidate_key job = Some k) as Hk.
  { unfold candidate_key. rewrite Ha, Ht, Hc, Hl. by destruct k as [[??]?]. }
  assert (stored (db rt1) = stored (db rt) ∧
          (∃ ext, visible_jobs (db rt1) = visible_jobs (db rt) ++ ext) ∧
          (new_runs (db rt) = [] →
             new_runs (db rt1) = [] ∧ flushed_runs (db rt1) = flushed_runs (db rt)) ∧
          ∀ W, settled (clock rt) (db rt1) = Some W →
            settled (clock rt) (db rt) = Some W ∧
            (autoflush w = true → W = visible_jobs (db rt1))) as (Hst & Hvis & Hruns & Hset).
  { destruct Hfl as [[Haf ->]|[Haf Hfl]].
    - split_and!; try done; [by exists []; rewrite app_nil_r|].
      intros W HW. split; [done|]. by rewrite Haf.
    - pose proof (flush_returned _ _ _ Hfl) as (? & ? & Hs & Hs').
      split_and!; try done.
      + apply settled_visible in Hs as [rows ?]. eauto.
      + unfold flush in Hfl. destruct (insert_jobs _ _ _); [|done].
        injection Hfl as Hfl. rewrite <- Hfl. simpl. intros ->. by rewrite app_nil_r.
      + intros W HW. rewrite Hs' in HW. injection HW as <-. done. }
  destruct (find _ _) as [j|] eqn:Hfind.
  - injection H as <- <-. split_and!; try done.
    exists k. split; [done|]. intros W' HW'.
    destruct (Hset _ HW') as [HW _]. exists W'. split; [done|]. left.
    split_and!; try done.
    apply find_key_Some in Hfind. apply settled_visible in HW' as [rows ->].
    unfold keys in *. rewrite fmap_app. apply elem_of_app. by left.
  - apply bind_returned in H as (inst & rt2 & [Hinst ->]%lift_returned & H).
    apply bind_returned in H as ([] & rt3 & Hadd & H).
    injection H as <- <-. unfold db_add_job in Hadd. injection Hadd as <-. simpl.
    split_and!; try done.
    exists k. split; [done|]. intros W' HW'.
    apply settled_add in HW' as (W & r & HW & Hr & ->).
    destruct (Hset _ HW) as [HW0 Haf].
    exists W. split; [done|]. right. exists r.
    pose proof (insert_job_row _ _ _ _ Hr) as (Ht' & Hc' & Hl' & Hd' & Hu' & Hdp' & Htitle & Hnow & Hid).
    pose proof (lookup_args_instance _ _ _ _ Ha _ Hinst) as (Et & Ec & El).
    apply find_key_None in Hfind.
    split_and!; try done.
    + exists inst. split_and!; done.
    + rewrite Et in Ht'. rewrite Ec in Hc'. rewrite El in Hl'.
      unfold job_key. destruct k as [[??]?]. simpl in *. congruence.
    + destruct Hvis as [ext Hvis]. rewrite Hvis in Hfind.
      unfold keys in *. rewrite fmap_app in Hfind.
      intros Hin. apply Hfind, elem_of_app. by left.
    + intros Htrue. by rewrite (Haf Htrue).
Qed.

Lemma store_candidates_returned w results : ∀ saved rt n rt',
  store_candidates w results saved rt = (Returned n, rt') →
  clock rt' = clock rt ∧ requests_sent rt' = requests_sent rt ∧
  stored (db rt') = stored (db rt) ∧
  (∃ ext, visible_jobs (db rt') = (visible_jobs (db rt) ++ ext)%list) ∧
  (new_runs (db rt) = [] →
     new_runs (db rt') = [] ∧ flushed_runs (db rt') = flushed_runs (db rt)) ∧
  ∀ W', settled (clock rt) (db rt') = Some W' →
    ∃ W added, settled (clock rt) (db rt) = Some W ∧ W' = W ++ added ∧
      grown w (clock rt) (visible_jobs (db rt)) results W added ∧
      n = saved + Z.of_nat (length added).
Proof.
  induction results as [|job rest IH]; intros saved rt n rt' H; simpl in H.
  - injection H as <- <-. split_and!; try done; [by exists []; rewrite app_nil_r|].
    intros W' HW'. exists W', []. rewrite app_nil_r. split_and!; try done; [|simpl; lia].
    split.
    + constructor.
    + intros _. split; [constructor|]. intros k Hk. by apply elem_of_nil in Hk.
    + intros job Hjob. by apply elem_of_nil in Hjob.
  - apply bind_returned in H as (n1 & rt1 & Hstep & Hloop).
    apply store_candidate_returned in Hstep
      as (Hclk1 & Hreq1 & Hst1 & [ext1 Hvis1] & Hruns1 & k & Hk & Hstep).
    apply IH in Hloop as (Hclk & Hreq & Hst & [ext Hvis] & Hruns & Hloop).
    split_and!; try congruence.
    { exists (ext1 ++ ext). by rewrite Hvis, Hvis1, app_assoc. }
    { intros Hnil. destruct (Hruns1 Hnil) as [Hn1 Hf1].
      destruct (Hruns Hn1) as [Hn Hf]. split; congruence. }
    intros W' HW'. rewrite <- Hclk1 in HW'.
    destruct (Hloop _ HW') as (W1 & added & HW1 & -> & [Hrows Honce Hcov] & ->).
    rewrite Hclk1 in HW1. destruct (Hstep _ HW1) as (W & HW & Hcase).
    assert (Forall (λ r, ∃ job0, job0 ∈ job :: rest ∧ row_from job0 r ∧
                 candidate_key job0 = Some (job_key r) ∧ is_Some (title r) ∧
                 created_at r = clock rt ∧ job_key r ∉ keys (visible_jobs (db rt))) added)
      as Hrows'.
    { eapply Forall_impl; [exact Hrows|]. simpl.
      intros r (job0 & Hin & Hrow & Hkey & Htitle & Hnow & Hfresh).
      exists job0. split_and!; try done; [by right|congruence|].
      intros Hbad. apply Hfresh. rewrite Hvis1. unfold keys. rewrite fmap_app.
      apply elem_of_app. by left. }
    destruct Hcase
      as [(-> & HkW & ->)|(r & -> & Hrow & Hkr & Htitle & Hnow & _ & Hfresh & Haf & ->)].
    + exists W, added. split_and!; try done. split.
      * done.
      * done.
      * intros job0 [->|Hin]%elem_of_cons.
        -- exists k. split; [done|]. unfold keys in *. rewrite fmap_app.
           apply elem_of_app. by left.
        -- by apply Hcov.
    + subst k. exists W, (r :: added). split_and!.
      * done.
      * by rewrite <- app_assoc.
      * split.
        -- constructor; [|done]. exists job. split_and!; try done. by left.
        -- intros Htrue. destruct (Honce Htrue) as [Hnd Hdisj].
           specialize (Haf Htrue). split.
           ++ simpl. constructor; [|done]. intros Hin. apply (Hdisj _ Hin).
              unfold keys. rewrite fmap_app. apply elem_of_app. right. simpl. by left.
           ++ intros k' [->|Hin]%elem_of_cons; [done|].
              intros Hbad. apply (Hdisj _ Hin). unfold keys. rewrite fmap_app.
              apply elem_of_app. by left.
        -- intros job0 [->|Hin]%elem_of_cons.
           ++ exists (job_key r). split; [done|]. unfold keys. rewrite fmap_app.
              apply elem_of_app. right. simpl. by left.
           ++ destruct (Hcov _ Hin) as (k' & ? & Hk'). exists k'. split; [done|].
              by rewrite <- app_assoc in Hk'.
      * simpl length. lia.
Qed.

(** ** The cycle that returns *)

Lemma requests_get_returned w u params timeout rt r rt' :
  requests_get w u params timeout rt = (Returned r, rt') →
  reply w = Reply r.1 r.2 ∧ clock rt' = clock rt + latency w ∧
  requests_sent rt' = requests_sent rt ++
    [{| req_url := u; req_params := params; req_timeout := timeout |}] ∧
  db rt' = db rt.
Proof.
  unfold requests_get. destruct (reply w) as [|status body]; [done|].
  by intros [= <- <-].
Qed.

Lemma json_returned r rt v rt' :
  json r rt = (Returned v, rt') → r.2 = Some v ∧ rt' = rt.
Proof.
  unfold json. destruct (r.2) as [v'|]; [|done]. by intros [= <- <-].
Qed.

Lemma db_commit_returned w rt u rt' :
  db_commit w rt = (Returned u, rt') →
  commit_ok w = true ∧ clock rt' = clock rt ∧ requests_sent rt' = requests_sent rt ∧
  ∃ s, flush (clock rt) (db rt) = (Returned (), s) ∧
       db rt' = SessionLocal {| jobs := visible_jobs s; scheduled_runs := visible_runs s |}.
Proof.
  unfold db_commit. intros ([] & rt1 & Hf & H)%bind_returned.
  apply db_flush_returned in Hf as (Hf & Hclk & Hreq).
  destruct (commit_ok w); [|done]. injection H as _ <-. simpl.
  split_and!; try done. eauto.
Qed.

Lemma cycle_returned w p n p' :
  serpapi_job w p = (Returned (Some n), p') →
  truthy (SERPAPI_KEY w) = true ∧ commit_ok w = true ∧
  ∃ items added, candidates w = Some items ∧
    time p' = time p + latency w ∧ sent p' = sent p ++ [the_request w] ∧
    scheduled_runs (tables p') = scheduled_runs (tables p) ++ [the_run w p] ∧
    jobs (tables p') = jobs (tables p) ++ added ∧
    grown w (time p + latency w) (jobs (tables p)) items (jobs (tables p)) added ∧
    n = Z.of_nat (length added).
Proof.
  unfold serpapi_job.
  destruct (fetch_and_store_jobs w _) as [o rt1] eqn:Hrun. simpl.
  intros [= -> <-]. simpl. unfold fetch_and_store_jobs in Hrun.
  destruct (truthy (SERPAPI_KEY w)); simpl in Hrun; [|done].
  apply bind_returned in Hrun as (r & rta & Hget & Hrun).
  apply requests_get_returned in Hget as (Hreply & Hclk_a & Hreq_a & Hdb_a).
  apply bind_returned in Hrun as (dat & rtb & [Hbody ->]%json_returned & Hrun).
  apply bind_returned in Hrun as (results & rtc & [Hres ->]%lift_returned & Hrun).
  apply bind_returned in Hrun as (items & rtd & [Hitems ->]%lift_returned & Hrun).
  apply bind_returned in Hrun as (saved & rte & Hloop & Hrun).
  apply bind_returned in Hrun as (now & rtf & Hnow & Hrun).
  injection Hnow as <- <-.
  apply bind_returned in Hrun as ([] & rtg & Hadd & Hrun).
  injection Hadd as <-.
  apply bind_returned in Hrun as ([] & rth & Hcommit & Hrun).
  injection Hrun as <- <-.
  apply db_commit_returned in Hcommit as (Hok & Hclk_h & Hreq_h & s & Hflush & Hdb_h).
  apply store_candidates_returned in Hloop as (Hclk_e & Hreq_e & Hst_e & _ & Hruns & Hloop).
  rewrite Hdb_a in *. simpl in *.
  destruct (Hruns eq_refl) as [Hnew Hfl].
  unfold flush in Hflush. simpl in Hflush. unfold visible_jobs at 1 in Hflush.
  simpl in Hflush.
  destruct (insert_jobs _ _ _) as [rows|] eqn:Hrows; [|done].
  injection Hflush as <-. rewrite Hdb_h. simpl.
  destruct (Hloop ((jobs (stored (db rte)) ++ flushed_jobs (db rte)) ++ rows))
    as (W & added & HW & HW' & Hgrown & ->).
  { unfold settled, visible_jobs. rewrite <- Hclk_e, Hrows. done. }
  unfold settled, visible_jobs in HW. simpl in HW. injection HW as <-.
  unfold visible_jobs in Hgrown. simpl in Hgrown.
  rewrite !app_nil_r in Hgrown.
  split_and!; try done. exists items, added.
  rewrite Hclk_h, Hclk_e, Hclk_a, Hreq_h, Hreq_e, Hreq_a.
  split_and!; try done.
  - unfold candidates. rewrite Hreply. destruct r as [status body]. simpl in *.
    by rewrite Hbody, Hres, Hitems.
  - unfold visible_runs. simpl. rewrite Hfl, Hnew, Hst_e. simpl.
    rewrite !app_nil_r. done.
  - unfold visible_jobs. simpl. rewrite app_assoc, HW'. by rewrite !app_nil_r.
  - by rewrite <- Hclk_a.
Qed.

(** ** Nothing is committed before [db.commit()] *)

Lemma keeps_ret {A} (a : A) : keeps (ret a).
Proof. by intros rt o rt' [= <- <-]. Qed.

Lemma keeps_raise {A} (e : exn) : keeps (raise (A:=A) e).
Proof. intros rt o rt' H. by injection H as <- <-. Qed.

Lemma keeps_lift {A} (x : outcome A) : keeps (lift x).
Proof. by intros rt o rt' [= <- <-]. Qed.

Lemma keeps_bind {A B} (m : M A) (k : A → M B) :
  keeps m → (∀ a, keeps (k a)) → keeps (bind m k).
Proof.
  intros Hm Hk rt o rt'. unfold bind.
  destruct (m rt) as [[a|e] rt1] eqn:E; pose proof (Hm _ _ _ E) as (? & ? & ?).
  - intros (? & ? & ?)%Hk. split_and!; congruence.
  - by intros [= <- <-].
Qed.

Lemma keeps_db_flush : keeps db_flush.
Proof.
  intros rt o rt'. unfold db_flush, flush.
  destruct (insert_jobs _ _ _); by intros [= <- <-].
Qed.

Lemma keeps_db_add_job j : keeps (db_add_job j).
Proof. by intros rt o rt' [= <- <-]. Qed.

Lemma keeps_db_add_run r : keeps (db_add_run r).
Proof. by intros rt o rt' [= <- <-]. Qed.

Lemma keeps_utcnow : keeps utcnow.
Proof. by intros rt o rt' [= <- <-]. Qed.

Lemma keeps_json r : keeps (json r).
Proof. unfold json. destruct (r.2); [apply keeps_ret|apply keeps_raise]. Qed.

Create HintDb keeps discriminated.
#[local] Hint Resolve keeps_ret keeps_raise keeps_lift keeps_db_flush keeps_db_add_job
  keeps_db_add_run keeps_utcnow keeps_json : keeps.

(** Peel the binds off a goal [keeps (do x <- m; k)], closing the steps the
    database knows. *)
Ltac keeps_binds :=
  repeat first [ solve [auto with keeps] | apply keeps_bind; [|intros ?] ].

Lemma keeps_query_first_job w t c l : keeps (query_first_job w t c l).
Proof.
  unfold query_first_job. apply keeps_bind.
  - destruct (autoflush w); auto with keeps.
  - intros _. destruct (bind_text t), (bind_text c), (bind_text l);
      try apply keeps_raise. by intros rt x rt' [= <- <-].
Qed.
#[local] Hint Resolve keeps_query_first_job : keeps.

Lemma keeps_store_candidate w job saved : keeps (store_candidate w job saved).
Proof.
  unfold store_candidate. keeps_binds.
  match goal with |- keeps (match ?hit with _ => _ end) => destruct hit end; keeps_binds.
Qed.
#[local] Hint Resolve keeps_store_candidate : keeps.

Lemma keeps_store_candidates w results : ∀ saved, keeps (store_candidates w results saved).
Proof.
  induction results as [|job rest IH]; intros saved; simpl; keeps_binds.
Qed.
#[local] Hint Resolve keeps_store_candidates : keeps.

Lemma keeps_atomic {A} (m : M A) : keeps m → atomic m.
Proof. intros Hm rt o rt' (? & ? & ?)%Hm. done. Qed.

Lemma atomic_bind {A B} (m : M A) (k : A → M B) :
  keeps m → (∀ a, atomic (k a)) → atomic (bind m k).
Proof.
  intros Hm Hk rt o rt'. unfold bind.
  destruct (m rt) as [[a|e] rt1] eqn:E; pose proof (Hm _ _ _ E) as (? & ? & ?).
  - intros (? & ? & Hst)%Hk. split_and!; try congruence.
    intros Hr. rewrite (Hst Hr). done.
  - by intros [= <- <-].
Qed.

Lemma atomic_db_commit w : atomic (db_commit w).
Proof.
  intros rt o rt'. unfold db_commit, bind.
  destruct (db_flush rt) as [[[]|e'] rt1] eqn:E;
    pose proof (keeps_db_flush _ _ _ E) as (? & ? & ?).
  - destruct (commit_ok w); by intros [= <- <-].
  - by intros [= <- <-].
Qed.

Lemma atomic_commit_and_return w (saved : Z) :
  atomic (do_ db_commit w; ret (Some saved)).
Proof.
  intros rt o rt'. unfold bind.
  destruct (db_commit w rt) as [[[]|e] rt1] eqn:E;
    pose proof (atomic_db_commit _ _ _ _ E) as (? & ? & ?).
  - by intros [= <- <-].
  - by intros [= <- <-].
Qed.

(** Whatever the cycle does short of returning a count, the committed
    tables are as before; it has sent its one request unless it was
    skipped. *)
Lemma cycle_not_committed w p o p' :
  serpapi_job w p = (o, p') →
  match o with
  | Returned (Some _) => True
  | Returned None => truthy (SERPAPI_KEY w) = false ∧ p' = p
  | Raised _ =>
      truthy (SERPAPI_KEY w) = true ∧ tables p' = tables p ∧
      time p' = time p + latency w ∧ sent p' = sent p ++ [the_request w]
  end.
Proof.
  unfold serpapi_job.
  destruct (fetch_and_store_jobs w _) as [o1 rt1] eqn:Hrun. simpl.
  intros [= -> <-]. unfold fetch_and_store_jobs in Hrun.
  destruct (truthy (SERPAPI_KEY w)); simpl in Hrun.
  - unfold bind at 1 in Hrun.
    destruct (requests_get w _ _ _ _) as [[r|e] rta] eqn:Hget.
    + apply requests_get_returned in Hget as (_ & Hclk & Hreq & Hdb).
      assert (atomic (do data <- json r;
          do results <- lift (py_get data "jobs_results" (PList []));
          do items <- lift (py_iter results);
          do saved <- store_candidates w items 0;
          do now <- utcnow;
          do_ db_add_run {| kw_run_time := now; kw_api_calls_made := 1; kw_success := 1 |};
          do_ db_commit w; ret (Some saved))) as Hat.
      { repeat (apply atomic_bind; [solve [auto with keeps]|intros ?]).
        apply atomic_commit_and_return. }
      pose proof (Hat _ _ _ Hrun) as (Hclk1 & Hreq1 & Hst).
      destruct o as [[n|]|e]; [done| |].
      * exfalso. do 7 (apply bind_returned in Hrun as (? & ? & _ & Hrun)). done.
      * simpl in *. rewrite (Hst eq_refl), Hdb, Hclk1, Hclk, Hreq1, Hreq. done.
    + unfold requests_get in Hget. injection Hrun as <- <-.
      destruct (reply w); [|done]. injection Hget as <- <-. done.
  - injection Hrun as <- <-. by destruct p.
Qed.

(** ** The outcome does not depend on the clock *)

Lemma similar_ret {A} (R : A → A → Prop) a b : R a b → similar R (ret a) (ret b).
Proof. intros HR rt1 rt2 Hal. by split. Qed.

Lemma similar_raise {A} (R : A → A → Prop) e : similar R (raise e) (raise e).
Proof. intros rt1 rt2 Hal. by split. Qed.

Lemma similar_lift {A} (x : outcome A) : similar eq (lift x) (lift x).
Proof. intros rt1 rt2 Hal. split; [done|]. by destruct x. Qed.

Lemma similar_bind {A B} (R : A → A → Prop) (R' : B → B → Prop) m1 m2 k1 k2 :
  similar R m1 m2 → (∀ a b, R a b → similar R' (k1 a) (k2 b)) →
  similar R' (bind m1 k1) (bind m2 k2).
Proof.
  intros Hm Hk rt1 rt2 Hal. unfold bind. specialize (Hm rt1 rt2 Hal).
  destruct (m1 rt1) as [[a|e1] r1], (m2 rt2) as [[b|e2] r2];
    destruct Hm as [Hal' HR]; simpl in *; try done.
  by apply Hk.
Qed.

Lemma untimed_id l : map id (map untimed l) = map id l.
Proof. rewrite map_map. done. Qed.

Lemma untimed_app_inv l1 l2 r1 r2 :
  map untimed l1 = map untimed l2 → map untimed r1 = map untimed r2 →
  map untimed (l1 ++ r1) = map untimed (l2 ++ r2).
Proof. intros H1 H2. by rewrite !map_app, H1, H2. Qed.

Lemma insert_job_alike n1 n2 t1 t2 p :
  map untimed t1 = map untimed t2 →
  match insert_job n1 t1 p, insert_job n2 t2 p with
  | Returned j1, Returned j2 => untimed j1 = untimed j2
  | Raised e1, Raised e2 => e1 = e2
  | _, _ => False
  end.
Proof.
  intros Ht. unfold insert_job.
  rewrite <- (untimed_id t1), <- (untimed_id t2), Ht.
  destruct (bind_text (kw_title p)) as [[?|]|], (bind_text (kw_company p)),
    (bind_text (kw_location p)), (bind_text (kw_description p)),
    (bind_text (kw_url p)), (bind_text (kw_date_posted p)); done.
Qed.

Lemma insert_jobs_alike n1 n2 ps : ∀ t1 t2,
  map untimed t1 = map untimed t2 →
  match insert_jobs n1 t1 ps, insert_jobs n2 t2 ps with
  | Returned r1, Returned r2 => map untimed r1 = map untimed r2
  | Raised e1, Raised e2 => e1 = e2
  | _, _ => False
  end.
Proof.
  induction ps as [|p ps IH]; intros t1 t2 Ht; simpl; [done|].
  pose proof (insert_job_alike n1 n2 t1 t2 p Ht) as Hj.
  destruct (insert_job n1 t1 p) as [j1|], (insert_job n2 t2 p) as [j2|]; try done.
  specialize (IH (t1 ++ [j1]) (t2 ++ [j2])).
  destruct (insert_jobs n1 _ ps), (insert_jobs n2 _ ps);
    try (apply IH; apply untimed_app_inv; simpl; congruence).
  simpl. f_equal; [done|]. apply IH. apply untimed_app_inv; simpl; congruence.
Qed.

Lemma alike_visible s1 s2 :
  alike s1 s2 → map untimed (visible_jobs s1) = map untimed (visible_jobs s2).
Proof. intros (H1 & H2 & _). by apply untimed_app_inv. Qed.

Lemma similar_db_flush : similar any db_flush db_flush.
Proof.
  intros rt1 rt2 Hal. unfold db_flush, flush.
  pose proof (insert_jobs_alike (clock rt1) (clock rt2) (new_jobs (db rt1)) _ _
                (alike_visible _ _ Hal)) as H.
  destruct Hal as (H1 & H2 & H3). rewrite <- H3.
  destruct (insert_jobs (clock rt1) _ _), (insert_jobs (clock rt2) _ _); try done.
  split; [|done]. simpl. split_and!; try done. by apply untimed_app_inv.
Qed.

Lemma find_untimed k l :
  is_Some (find (key_matches k) (map untimed l)) ↔ is_Some (find (key_matches k) l).
Proof.
  induction l as [|j l IH]; simpl; [done|].
  replace (key_matches k (untimed j)) with (key_matches k j) by done.
  destruct (key_matches k j); [|done]. split; eauto.
Qed.

Section Timeless.
  Context (w : world).

Lemma similar_query_first_job t c l :
  similar same_hit (query_first_job w t c l) (query_first_job w t c l).
Proof.
  unfold query_first_job. eapply similar_bind.
  - destruct (autoflush w); [apply similar_db_flush|by apply similar_ret].
  - intros _ _ _. destruct (bind_text t), (bind_text c), (bind_text l);
      try apply similar_raise.
    intros rt1 rt2 Hal. split; [done|]. simpl. unfold same_hit.
    rewrite <- (find_untimed _ (visible_jobs (db rt1))),
            <- (find_untimed _ (visible_jobs (db rt2))).
    by rewrite (alike_visible _ _ Hal).
Qed.

Lemma similar_db_add_job j : similar any (db_add_job j) (db_add_job j).
Proof.
  intros rt1 rt2 (H1 & H2 & H3). split; [|done]. simpl. split_and!; try done.
  by rewrite H3.
Qed.

Lemma similar_db_add_run r1 r2 : similar any (db_add_run r1) (db_add_run r2).
Proof. intros rt1 rt2 (H1 & H2 & H3). by split. Qed.

Lemma similar_utcnow : similar any utcnow utcnow.
Proof. intros rt1 rt2 Hal. by split. Qed.

Lemma similar_db_commit : similar any (db_commit w) (db_commit w).
Proof.
  unfold db_commit. eapply similar_bind; [apply similar_db_flush|].
  intros _ _ _ rt1 rt2 Hal. destruct (commit_ok w); (split; [|done]); simpl.
  - split_and!; try done. by apply alike_visible.
  - by destruct Hal as (? & _ & _).
Qed.

Lemma similar_requests_get u params timeout :
  similar eq (requests_get w u params timeout) (requests_get w u params timeout).
Proof. intros rt1 rt2 Hal. unfold requests_get. by destruct (reply w). Qed.

Lemma similar_json r : similar eq (json r) (json r).
Proof. unfold json. destruct (r.2); [by apply similar_ret|apply similar_raise]. Qed.

Lemma similar_store_candidate job saved :
  similar eq (store_candidate w job saved) (store_candidate w job saved).
Proof.
  unfold store_candidate. eapply similar_bind; [apply similar_lift|].
  intros args _ <-. eapply similar_bind; [apply similar_query_first_job|].
  intros [j1|] [j2|] Hhit; try (by apply similar_ret).
  - destruct Hhit as [Hhit _]. by destruct Hhit as [? ?]; eauto.
  - destruct Hhit as [_ Hhit]. by destruct Hhit as [? ?]; eauto.
  - eapply similar_bind; [apply similar_lift|]. intros inst _ <-.
    eapply similar_bind; [apply similar_db_add_job|]. intros _ _ _.
    by apply similar_ret.
Qed.

Lemma similar_store_candidates results : ∀ saved,
  similar eq (store_candidates w results saved) (store_candidates w results saved).
Proof.
  induction results as [|job rest IH]; intros saved; simpl.
  - by apply similar_ret.
  - eapply similar_bind; [apply similar_store_candidate|]. by intros n _ <-.
Qed.

Lemma similar_fetch_and_store_jobs :
  similar eq (fetch_and_store_jobs w) (fetch_and_store_jobs w).
Proof.
  unfold fetch_and_store_jobs. destruct (truthy _); simpl; [|by apply similar_ret].
  eapply similar_bind; [apply similar_requests_get|]. intros r _ <-.
  eapply similar_bind; [apply similar_json|]. intros data _ <-.
  eapply similar_bind; [apply similar_lift|]. intros results _ <-.
  eapply similar_bind; [apply similar_lift|]. intros items _ <-.
  eapply similar_bind; [apply similar_store_candidates|]. intros saved _ <-.
  eapply similar_bind; [apply similar_utcnow|]. intros now1 now2 _.
  eapply similar_bind; [apply similar_db_add_run|]. intros _ _ _.
  eapply similar_bind; [apply similar_db_commit|]. intros _ _ _.
  by apply similar_ret.
Qed.

(** What a cycle returns or raises depends on the committed listings, not
    on the clock, the ledger or the requests sent so far. *)
Lemma cycle_outcome_timeless p1 p2 :
  jobs (tables p1) = jobs (tables p2) → (serpapi_job w p1).1 = (serpapi_job w p2).1.
Proof.
  intros Ht. unfold serpapi_job.
  pose proof (similar_fetch_and_store_jobs
    {| clock := time p1; requests_sent := sent p1; db := SessionLocal (tables p1) |}
    {| clock := time p2; requests_sent := sent p2; db := SessionLocal (tables p2) |}) as H.
  destruct (fetch_and_store_jobs w _) as [o1 r1], (fetch_and_store_jobs w _) as [o2 r2].
  simpl. destruct H as [_ H].
  - split_and!; simpl; try done. by rewrite Ht.
  - simpl in H. destruct o1, o2; try done; congruence.
Qed.

End Timeless.

(** ** Lists of keys *)

Lemma keys_app l1 l2 : keys (l1 ++ l2) = keys l1 ++ keys l2.
Proof. apply fmap_app. Qed.

Lemma NoDup_keys_same l : NoDup (keys l) →
  ∀ L1 L2, L1 ∈ l → L2 ∈ l → job_key L1 = job_key L2 → L1 = L2.
Proof.
  induction l as [|j l IH]; intros Hnd L1 L2 H1 H2 Hk.
  - by apply elem_of_nil in H1.
  - simpl in Hnd. apply NoDup_cons in Hnd as [Hj Hnd].
    apply elem_of_cons in H1 as [->|H1], H2 as [->|H2]; try done.
    + exfalso. apply Hj. rewrite Hk. by apply list_elem_of_fmap_2.
    + exfalso. apply Hj. rewrite <- Hk. by apply list_elem_of_fmap_2.
    + by apply IH.
Qed.

Lemma count_key_absent k l :
  k ∉ keys l → filter (λ r, job_key r = k) l = [].
Proof.
  induction l as [|j l IH]; intros Hk; [done|].
  simpl in Hk. apply not_elem_of_cons in Hk as [Hne Hk].
  rewrite filter_cons_False; [by apply IH|congruence].
Qed.

Lemma count_key_once k l :
  NoDup (keys l) → k ∈ keys l → length (filter (λ r, job_key r = k) l) = 1%nat.
Proof.
  induction l as [|j l IH]; intros Hnd Hk.
  - by apply elem_of_nil in Hk.
  - simpl in Hnd, Hk. apply NoDup_cons in Hnd as [Hj Hnd].
    destruct (decide (job_key j = k)) as [<-|Hne].
    + rewrite filter_cons_True by done. simpl. by rewrite count_key_absent.
    + rewrite filter_cons_False by done. apply IH; [done|].
      apply elem_of_cons in Hk as [Hk|Hk]; [congruence|done].
Qed.

(** ** LIKE and substrings *)

Lemma append_nil_l (s : string) : "" +:+ s = s.
Proof. reflexivity. Qed.

Lemma append_cons (c : ascii) (s t : string) : String c s +:+ t = String c (s +:+ t).
Proof. reflexivity. Qed.

Lemma like_percent (rest text : string) :
  like (String "%" rest) text = true ↔
  ∃ before after, text = before +:+ after ∧ like rest after = true.
Proof.
  change (like (String "%" rest)) with
    (fix any (text : string) : bool :=
       like rest text || match text with
                         | EmptyString => false
                         | String _ text' => any text'
                         end).
  induction text as [|c text IH].
  - rewrite orb_false_r. split.
    + intros H. by exists "", "".
    + intros ([|??] & after & Heq & H).
      * rewrite append_nil_l in Heq. by subst.
      * by rewrite append_cons in Heq.
  - rewrite orb_true_iff, IH. split.
    + intros [H|(before & after & -> & H)].
      * by exists "", (String c text).
      * by exists (String c before), after.
    + intros ([|c' before] & after & Heq & H).
      * left. rewrite append_nil_l in Heq. by subst.
      * right. rewrite append_cons in Heq. injection Heq as -> ->. eauto.
Qed.

Lemma like_plain_prefix (q : string) : ∀ text,
  plain q = true →
  like (q +:+ "%") text = true ↔ ∃ after, text = q +:+ after.
Proof.
  induction q as [|c q IH]; intros text Hq.
  - rewrite append_nil_l, like_percent. split.
    + intros _. exists text. by rewrite append_nil_l.
    + intros _. exists text, "". split; [|done].
      clear. induction text as [|? ? IHt]; [done|]. by rewrite append_cons, <- IHt.
  - simpl in Hq. apply andb_true_iff in Hq as [Hc Hq].
    apply andb_true_iff in Hc as [Hc1 Hc2].
    apply negb_true_iff in Hc1, Hc2. rewrite append_cons. simpl. rewrite Hc1, Hc2.
    destruct text as [|d text].
    + split; [done|]. intros [after Heq]. by rewrite append_cons in Heq.
    + rewrite andb_true_iff, (IH _ Hq). split.
      * intros [->%Ascii.eqb_eq [after ->]]. exists after. by rewrite append_cons.
      * intros [after Heq]. rewrite append_cons in Heq. injection Heq as -> ->.
        split; [apply Ascii.eqb_refl|eauto].
Qed.

Lemma like_contains (q text : string) :
  plain q = true → like ("%" +:+ q +:+ "%") text = true ↔ substring q text.
Proof.
  intros Hq. rewrite append_cons, append_nil_l, like_percent. unfold substring. split.
  - intros (before & after & -> & [after' ->]%like_plain_prefix); eauto.
  - intros (before & after & ->). exists before, (q +:+ after). split; [done|].
    apply like_plain_prefix; eauto.
Qed.

Lemma lower_ascii_idemp c : lower_ascii (lower_ascii c) = lower_ascii c.
Proof.
  destruct c as [[] [] [] [] [] [] [] []]; reflexivity.
Qed.

Lemma lower_idemp s : lower (lower s) = lower s.
Proof. induction s as [|c s IH]; simpl; [done|]. by rewrite lower_ascii_idemp, IH. Qed.

Lemma lower_app s t : lower (s +:+ t) = lower s +:+ lower t.
Proof. induction s as [|c s IH]; [done|]. rewrite append_cons. simpl. by rewrite IH. Qed.

Lemma plain_lower s : plain (lower s) = plain s.
Proof.
  induction s as [|c s IH]; simpl; [done|]. rewrite IH. f_equal.
  destruct c as [[] [] [] [] [] [] [] []]; reflexivity.
Qed.

(** For a query text without [%] and [_], the filter of [list_jobs] keeps
    exactly the listings whose title contains the text, letter case
    aside. *)
Lemma title_filter_is_substring_match (q : string) (j : Job) :
  plain q = true →
  ilike (title j) ("%" +:+ lower q +:+ "%") = true ↔
  ∃ t, title j = Some t ∧ substring (lower q) (lower t).
Proof.
  intros Hq. unfold ilike. destruct (title j) as [t|].
  - rewrite !lower_app, lower_idemp. change (lower "%") with "%".
    rewrite like_contains by (by rewrite plain_lower). split; [eauto|].
    by intros (t' & [= <-] & H).
  - split; [done|]. by intros (t & ? & _).
Qed.

(** With a wildcard in it the text is a pattern: [a_a] finds
    "Data Analyst", which does not contain it. *)
Example wildcard_query :
  list_jobs [listing_row 1 "Backend Engineer" 50; listing_row 2 "Data Analyst" 60]
            {| arg_q := Some "a_a"; arg_page := None; arg_limit := None |} =
  Some {| data := [item_of (listing_row 2 "Data Analyst" 60)]; total := 1; page := 1 |}.
Proof. reflexivity. Qed.

(** ** Scenarios *)

(** The scenario of a fresh store and three candidates: three listings and
    one ledger entry after the first cycle, three listings and two entries
    after the second. *)
Example three_candidates_twice (af : bool) :
  let w := provider af [backend_posting; analyst_posting; tester_posting] in
  let p1 := (serpapi_job w fresh).2 in
  let p2 := (serpapi_job w p1).2 in
  (serpapi_job w fresh).1 = Returned (Some 3) ∧
  length (jobs (tables p1)) = 3%nat ∧
  map success (scheduled_runs (tables p1)) = [1] ∧
  (serpapi_job w p1).1 = Returned (Some 0) ∧
  jobs (tables p2) = jobs (tables p1) ∧
  map success (scheduled_runs (tables p2)) = [1; 1].
Proof. destruct af; vm_compute; done. Qed.

(** A refusal by the provider that comes as a JSON object is processed as
    a response without candidates: the run is recorded as a success. *)
Example refusal_is_recorded_as_success (af : bool) :
  serpapi_job
    {| SERPAPI_KEY := Some "expired"; JOB_SEARCH_QUERY := None; autoflush := af;
       reply := Reply 401 (Some (PDict [("error", PStr "Invalid API key.")]));
       latency := 1; commit_ok := true |} fresh =
  (Returned (Some 0),
   {| tables := {| jobs := [];
                   scheduled_runs := [{| run_id := 1; run_time := 101;
                                         api_calls_made := 1; success := 1 |}] |};
      time := 101;
      sent := [{| req_url := SERP_URL;
                  req_params := [("engine", "google_jobs");
                                 ("q", "software developer jobs south africa");
                                 ("api_key", "expired"); ("num", "100")];
                  req_timeout := 30 |}] |}).
Proof. destruct af; reflexivity. Qed.

(** ** The claims *)

(** Once a cycle has returned, every candidate of the response has its key
    in the store, so a later cycle over the same candidates adds nothing. *)
Lemma returned_cycle_covers w p n p' items :
  serpapi_job w p = (Returned (Some n), p') → candidates w = Some items →
  ∀ job, job ∈ items → ∃ k, candidate_key job = Some k ∧ k ∈ keys (jobs (tables p')).
Proof.
  intros (_ & _ & items' & added & Hc & _ & _ & _ & Hjobs & [_ _ Hcov] & _)%cycle_returned.
  rewrite Hc. intros [= <-] job Hjob. rewrite Hjobs. by apply Hcov.
Qed.

Lemma covered_cycle_adds_nothing w p n p' items :
  serpapi_job w p = (Returned (Some n), p') → candidates w = Some items →
  (∀ job, job ∈ items → ∃ k, candidate_key job = Some k ∧ k ∈ keys (jobs (tables p))) →
  jobs (tables p') = jobs (tables p) ∧ n = 0.
Proof.
  intros (_ & _ & items' & added & Hc & _ & _ & _ & Hjobs & [Hrows _ _] & ->)%cycle_returned.
  rewrite Hc. intros [= <-] Hcov. destruct added as [|r added].
  - by rewrite Hjobs, app_nil_r.
  - exfalso. apply Forall_cons in Hrows as [(job & Hin & _ & Hkey & _ & _ & Hfresh) _].
    destruct (Hcov _ Hin) as (k & Hk & Hpresent). congruence.
Qed.

(** C1. Idempotence: for every provider reply and every store, running the
    cycle and then running it again against the same reply leaves the
    listings after the second run exactly as they were after the first. *)
Theorem idempotent_refetch (w : world) (p : process) :
  jobs (tables (serpapi_job w (serpapi_job w p).2).2) =
  jobs (tables (serpapi_job w p).2).
Proof.
  destruct (serpapi_job w p) as [o1 p1] eqn:H1. simpl.
  destruct (serpapi_job w p1) as [o2 p2] eqn:H2. simpl.
  pose proof (cycle_not_committed _ _ _ _ H2) as Hn2.
  destruct o2 as [[n2|]|e2].
  - destruct o1 as [[n1|]|e1].
    + destruct (cycle_returned _ _ _ _ H1) as (? & ? & items & ? & Hc & ?).
      eapply covered_cycle_adds_nothing; [exact H2|exact Hc|].
      by eapply returned_cycle_covers.
    + apply cycle_not_committed in H1 as [Hkey _].
      apply cycle_returned in H2 as [Hkey' _]. congruence.
    + destruct (cycle_not_committed _ _ _ _ H1) as (? & Htab & ?).
      pose proof (cycle_outcome_timeless w p1 p) as Hsame.
      rewrite H1, H2, Htab in Hsame. by specialize (Hsame eq_refl).
  - by destruct Hn2 as [_ ->].
  - by destruct Hn2 as (_ & -> & _).
Qed.

(** C2 (amended). The dedup policy of a cycle that runs through to an
    accepted commit: the listings already stored stay as they are, in
    place; a candidate whose key is already stored adds nothing under that
    key; a candidate whose key is not stored has a new listing under that
    key, built from a candidate with that key, whose [created_at] was read
    from the clock at its INSERT: not before the fetch had returned and not
    after the end of the cycle. *)
Theorem dedup_policy (w : world) (p p' : process) (n : Z) :
  serpapi_job w p = (Returned (Some n), p') →
  ∃ items added,
    candidates w = Some items ∧
    jobs (tables p') = jobs (tables p) ++ added ∧
    ∀ job, job ∈ items →
      ∃ k, candidate_key job = Some k ∧
        (k ∈ keys (jobs (tables p)) → ∀ r, r ∈ added → job_key r ≠ k) ∧
        (k ∉ keys (jobs (tables p)) →
           ∃ r job', r ∈ added ∧ job_key r = k ∧
                     (time p + latency w ≤ created_at r)%Z ∧
                     (created_at r ≤ time p')%Z ∧
                     job' ∈ items ∧ candidate_key job' = Some k ∧ row_from job' r).
Proof.
  intros (_ & _ & items & added & Hc & Htime & _ & _ & Hjobs & [Hrows _ Hcov] & _)%cycle_returned.
  exists items, added. split_and!; try done.
  intros job Hjob. destruct (Hcov _ Hjob) as (k & Hk & Hin). exists k.
  rewrite Forall_forall in Hrows. split_and!; [done| |].
  - intros Hstored r Hr <-.
    by destruct (Hrows _ Hr) as (_ & _ & _ & _ & _ & _ & Hfresh).
  - intros Hfresh. rewrite keys_app in Hin.
    apply elem_of_app in Hin as [Hin|Hin]; [done|].
    apply list_elem_of_fmap in Hin as (r & -> & Hr).
    destruct (Hrows _ Hr) as (job' & Hjob' & Hrow & Hkey & _ & Hnow & _).
    exists r, job'. split_and!; try done; lia.
Qed.

(** A store that holds the Backend Engineer listing, and a response with a
    reposting of it and a new posting: one row is added. *)
Lemma dedup_policy_witness :
  ∃ items added,
    candidates (provider false [backend_reposting; analyst_posting]) = Some items ∧
    jobs (tables (serpapi_job (provider false [backend_reposting; analyst_posting])
                    {| tables := {| jobs := [listing_row 1 "Backend Engineer" 50];
                                    scheduled_runs := [] |};
                       time := 100; sent := [] |}).2) =
      [listing_row 1 "Backend Engineer" 50] ++ added ∧
    length added = 1%nat.
Proof.
  destruct (dedup_policy (provider false [backend_reposting; analyst_posting])
              {| tables := {| jobs := [listing_row 1 "Backend Engineer" 50];
                              scheduled_runs := [] |};
                 time := 100; sent := [] |}
              (serpapi_job (provider false [backend_reposting; analyst_posting])
                    {| tables := {| jobs := [listing_row 1 "Backend Engineer" 50];
                                    scheduled_runs := [] |};
                       time := 100; sent := [] |}).2 1)
    as (items & added & Hc & Hjobs & _); [vm_compute; reflexivity|].
  exists items, added. split_and!; [done|done|].
  vm_compute in Hjobs. by injection Hjobs as <-.
Defined.

(** The fetch succeeds and the one candidate has no stored match, but the
    database refuses the commit: no listing is inserted. *)
Lemma unmatched_candidate_is_not_inserted :
  candidates (refusing true [backend_posting]) = Some [backend_posting] ∧
  candidate_key backend_posting =
    Some (Some "Backend Engineer", Some "Acme", Some "Cape Town") ∧
  keys (jobs (tables fresh)) = [] ∧
  (serpapi_job (refusing true [backend_posting]) fresh).1 = Raised OperationalError ∧
  jobs (tables (serpapi_job (refusing true [backend_posting]) fresh).2) = [].
Proof. split_and!; reflexivity. Qed.

(** When the session autoflushes, a cycle preserves the dedup-key
    invariant: if no two stored listings share a key before it, none do
    after it, and two listings of the store with the same key are the same
    record. *)
Lemma dedup_key_invariant (w : world) (p : process) :
  autoflush w = true →
  NoDup (keys (jobs (tables p))) →
  NoDup (keys (jobs (tables (serpapi_job w p).2))) ∧
  ∀ L1 L2, L1 ∈ jobs (tables (serpapi_job w p).2) →
           L2 ∈ jobs (tables (serpapi_job w p).2) →
           job_key L1 = job_key L2 → L1 = L2.
Proof.
  intros Haf Hnd.
  assert (NoDup (keys (jobs (tables (serpapi_job w p).2)))) as Hnd'.
  { destruct (serpapi_job w p) as [o p'] eqn:Hrun. simpl.
    pose proof (cycle_not_committed _ _ _ _ Hrun) as Hno.
    destruct o as [[n|]|e].
    - apply cycle_returned in Hrun
        as (_ & _ & items & added & _ & _ & _ & _ & -> & [_ Honce _] & _).
      destruct (Honce Haf) as [Hadded Hdisj]. rewrite keys_app.
      apply NoDup_app. split_and!; try done. intros k Hk Hk'. by apply (Hdisj k).
    - by destruct Hno as [_ ->].
    - by destruct Hno as (_ & -> & _). }
  split; [done|]. by apply NoDup_keys_same.
Qed.

(** Two postings with one key, autoflush on, empty store. *)
Lemma dedup_key_invariant_witness :
  NoDup (keys (jobs (tables
    (serpapi_job (provider true [backend_posting; backend_reposting]) fresh).2))).
Proof.
  apply (dedup_key_invariant (provider true [backend_posting; backend_reposting]) fresh).
  - reflexivity.
  - vm_compute. constructor.
Defined.

(** C3. The cycle at a response that carries the same posting twice, with a
    session that does not autoflush and an empty store: the lookup of the
    second candidate does not see the row queued for the first, both are
    inserted, and the store ends with two different listings under one
    key. *)
Theorem duplicate_keys_without_autoflush :
  NoDup (keys (jobs (tables fresh))) ∧
  ∃ L1 L2,
    L1 ∈ jobs (tables (serpapi_job (provider false [backend_posting; backend_posting]) fresh).2) ∧
    L2 ∈ jobs (tables (serpapi_job (provider false [backend_posting; backend_posting]) fresh).2) ∧
    job_key L1 = job_key L2 ∧ L1 ≠ L2.
Proof.
  split; [vm_compute; constructor|].
  eexists _, _. split_and!.
  - vm_compute. apply list_elem_of_here.
  - vm_compute. apply list_elem_of_further, list_elem_of_here.
  - reflexivity.
  - discriminate.
Qed.

(** C4. Without a credential the cycle is a no-op: it returns at once, no
    request goes out, and listings, ledger and clock are as before. *)
Theorem no_credential_no_op (w : world) (p : process) :
  truthy (SERPAPI_KEY w) = false → serpapi_job w p = (Returned None, p).
Proof.
  intros Hkey. unfold serpapi_job, fetch_and_store_jobs. rewrite Hkey. simpl.
  by destruct p.
Qed.

(** No [SERPAPI_KEY] in the environment. *)
Lemma no_credential_no_op_witness :
  serpapi_job (unconfigured true) fresh = (Returned None, fresh).
Proof. apply (no_credential_no_op (unconfigured true) fresh). reflexivity. Defined.

(** The pass over the candidates inside a cycle that returns: it starts when
    the fetch has returned and leaves a session whose pending rows, once
    written, give the listings of the cycle's end. *)
Lemma cycle_returned_loop w p n p' :
  serpapi_job w p = (Returned (Some n), p') →
  ∃ items rt',
    candidates w = Some items ∧
    store_candidates w items 0
      {| clock := time p + latency w; requests_sent := sent p ++ [the_request w];
         db := SessionLocal (tables p) |} = (Returned n, rt') ∧
    settled (time p + latency w) (db rt') = Some (jobs (tables p')).
Proof.
  unfold serpapi_job.
  destruct (fetch_and_store_jobs w _) as [o rt1] eqn:Hrun. simpl.
  intros [= -> <-]. simpl. unfold fetch_and_store_jobs in Hrun.
  destruct (truthy (SERPAPI_KEY w)); simpl in Hrun; [|done].
  apply bind_returned in Hrun as (r & rta & Hget & Hrun).
  apply bind_returned in Hrun as (dat & rtb & [Hbody ->]%json_returned & Hrun).
  apply bind_returned in Hrun as (results & rtc & [Hres ->]%lift_returned & Hrun).
  apply bind_returned in Hrun as (items & rtd & [Hitems ->]%lift_returned & Hrun).
  apply bind_returned in Hrun as (saved & rte & Hloop & Hrun).
  apply bind_returned in Hrun as (now & rtf & Hnow & Hrun).
  injection Hnow as <- <-.
  apply bind_returned in Hrun as ([] & rtg & Hadd & Hrun).
  injection Hadd as <-.
  apply bind_returned in Hrun as ([] & rth & Hcommit & Hrun).
  injection Hrun as <- <-.
  apply db_commit_returned in Hcommit as (_ & _ & _ & s & Hflush & Hdb_h).
  unfold requests_get in Hget. destruct (reply w) as [|status body] eqn:Hreply; [done|].
  injection Hget as <- <-. simpl in *.
  pose proof (keeps_store_candidates _ _ _ _ _ _ Hloop) as (_ & Hclk & _). simpl in Hclk.
  exists items, rte. split_and!.
  - unfold candidates. by rewrite Hreply, Hbody, Hres, Hitems.
  - exact Hloop.
  - unfold flush in Hflush. simpl in Hflush. unfold visible_jobs at 1 in Hflush.
    simpl in Hflush. rewrite Hclk in Hflush.
    destruct (insert_jobs _ _ _) as [rows|] eqn:Hrows; [|done].
    injection Hflush as <-. rewrite Hdb_h. simpl.
    unfold settled, visible_jobs. rewrite Hrows. unfold visible_jobs. simpl.
    by rewrite app_assoc.
Qed.

(** C5 (amended). A cycle that runs to its commit appends exactly one
    Ingestion Run, whatever the number of candidates: [api_calls_made] is 1,
    the number of requests the cycle sent, [success] is 1, and [run_time] is
    what [utcnow()] gives at line 41, in the state that the pass over the
    candidates leaves: a reading made when the fetch has returned and every
    candidate has been gone through, not before the end of the fetch and not
    after the end of the cycle. *)
Theorem run_accounting (w : world) (p p' : process) (n : Z) :
  serpapi_job w p = (Returned (Some n), p') →
  ∃ run items rt0 rt',
    scheduled_runs (tables p') = scheduled_runs (tables p) ++ [run] ∧
    sent p' = sent p ++ [the_request w] ∧
    api_calls_made run = Z.of_nat (length (sent p')) - Z.of_nat (length (sent p)) ∧
    api_calls_made run = 1 ∧
    success run = 1 ∧
    candidates w = Some items ∧
    db rt0 = SessionLocal (tables p) ∧
    requests_sent rt0 = sent p ++ [the_request w] ∧
    (time p + latency w ≤ clock rt0)%Z ∧
    store_candidates w items 0 rt0 = (Returned n, rt') ∧
    utcnow rt' = (Returned (run_time run), rt') ∧
    (clock rt0 ≤ run_time run)%Z ∧ (run_time run ≤ time p')%Z.
Proof.
  intros Hrun.
  destruct (cycle_returned_loop _ _ _ _ Hrun) as (items & rt' & Hc & Hloop & _).
  pose proof (keeps_store_candidates _ _ _ _ _ _ Hloop) as (_ & Hclk & _).
  simpl in Hclk.
  apply cycle_returned in Hrun as (_ & _ & _ & _ & _ & Htime & Hsent & Hruns & _).
  exists (the_run w p), items,
    {| clock := time p + latency w; requests_sent := sent p ++ [the_request w];
       db := SessionLocal (tables p) |}, rt'.
  rewrite Hsent, length_app. simpl.
  split_and!; try done; try lia.
  unfold utcnow. by rewrite Hclk.
Qed.

(** A response without candidates still leaves its run record. *)
Lemma run_accounting_witness :
  ∃ run,
    scheduled_runs (tables (serpapi_job (provider true []) fresh).2) = [run] ∧
    api_calls_made run = 1 ∧ success run = 1 ∧ (102 ≤ run_time run)%Z.
Proof.
  destruct (run_accounting (provider true []) fresh
              (serpapi_job (provider true []) fresh).2 0)
    as (run & items & rt0 & rt' & Hruns & _ & _ & Hcalls & Hok & _ & _ & _ & Hfetch
        & _ & _ & Hafter & _);
    [vm_compute; reflexivity|].
  exists run. split_and!; try done. simpl in Hfetch. lia.
Defined.

(** A cycle that starts at 100 and whose fetch takes 2 records 102. *)
Lemma run_time_is_not_the_cycle_start :
  ∃ n p' run,
    serpapi_job (provider true [backend_posting]) fresh = (Returned (Some n), p') ∧
    scheduled_runs (tables p') = scheduled_runs (tables fresh) ++ [run] ∧
    run_time run ≠ time fresh.
Proof.
  eexists _, _, _. split_and!.
  - vm_compute. reflexivity.
  - reflexivity.
  - discriminate.
Qed.

(** Where no list of candidates comes out of the reply, the fetch raises
    before it touches the session. *)
Lemma no_candidates_raises w rt :
  truthy (SERPAPI_KEY w) = true → candidates w = None →
  ∃ e rt', fetch_and_store_jobs w rt = (Raised e, rt').
Proof.
  intros Hkey Hc. unfold fetch_and_store_jobs. rewrite Hkey. simpl.
  unfold candidates in Hc. unfold bind at 1. unfold requests_get.
  destruct (reply w) as [|status [data|]]; [eauto| |eauto].
  unfold bind at 1. simpl. unfold bind at 1. simpl.
  destruct (py_get data "jobs_results" (PList [])) as [results|e]; [|eauto].
  unfold bind at 1. simpl. destruct (py_iter results); [done|eauto].
Qed.

(** C6 (amended). With a credential, when no list of candidates can be
    drawn from the provider's reply (no reply within the timeout, a body
    that is not JSON, a body of the wrong shape), the cycle ends by raising
    to its caller and records nothing: the ledger and the listings are
    unchanged, and the one request it sent is its only trace. *)
Theorem failed_fetch_records_nothing (w : world) (p : process) :
  truthy (SERPAPI_KEY w) = true → candidates w = None →
  ∃ e, serpapi_job w p =
         (Raised e, {| tables := tables p; time := time p + latency w;
                       sent := sent p ++ [the_request w] |}).
Proof.
  intros Hkey Hc.
  destruct (no_candidates_raises w
              {| clock := time p; requests_sent := sent p; db := SessionLocal (tables p) |}
              Hkey Hc) as (e & rt' & Hraise).
  destruct (serpapi_job w p) as [o p'] eqn:Hrun.
  pose proof (cycle_not_committed _ _ _ _ Hrun) as Hno.
  unfold serpapi_job in Hrun. rewrite Hraise in Hrun. simpl in Hrun.
  injection Hrun as <- _. destruct Hno as (_ & ? & ? & ?).
  exists e. destruct p'. simpl in *. congruence.
Qed.

(** The provider does not answer within the timeout. *)
Lemma failed_fetch_records_nothing_witness :
  ∃ e, serpapi_job (silent_provider false) fresh =
         (Raised e, {| tables := tables fresh; time := 130;
                       sent := [the_request (silent_provider false)] |}).
Proof.
  apply (failed_fetch_records_nothing (silent_provider false) fresh); reflexivity.
Defined.

(** After a timeout the ledger is as before: there is no run with
    [success = 0]. *)
Lemma failed_fetch_is_not_recorded :
  (serpapi_job (silent_provider true) fresh).1 = Raised RequestException ∧
  scheduled_runs (tables (serpapi_job (silent_provider true) fresh).2) =
    scheduled_runs (tables fresh) ∧
  ¬ ∃ run, run ∈ scheduled_runs (tables (serpapi_job (silent_provider true) fresh).2) ∧
           success run = 0.
Proof.
  split_and!; [reflexivity|reflexivity|].
  intros (run & Hin & _). vm_compute in Hin. by apply elem_of_nil in Hin.
Qed.

Lemma bind_ext {A B} (m m' : M A) (k k' : A → M B) rt :
  m rt = m' rt → (∀ a rt1, k a rt1 = k' a rt1) → bind m k rt = bind m' k' rt.
Proof.
  intros Hm Hk. unfold bind. rewrite Hm. by destruct (m' rt) as [[a|e] rt1].
Qed.

Lemma store_candidates_autoflush w w' items : ∀ saved rt,
  autoflush w = autoflush w' →
  store_candidates w items saved rt = store_candidates w' items saved rt.
Proof.
  induction items as [|job rest IH]; intros saved rt Haf; simpl; [done|].
  apply bind_ext; [|by intros; apply IH].
  unfold store_candidate, query_first_job. by rewrite Haf.
Qed.

(** X18. The status of the response plays no part: two replies with the same
    body are treated alike. *)
Lemma status_is_not_inspected (w w' : world) (status status' : Z) (body : option pyval)
    (p : process) :
  SERPAPI_KEY w = SERPAPI_KEY w' → JOB_SEARCH_QUERY w = JOB_SEARCH_QUERY w' →
  autoflush w = autoflush w' → latency w = latency w' → commit_ok w = commit_ok w' →
  reply w = Reply status body → reply w' = Reply status' body →
  serpapi_job w p = serpapi_job w' p.
Proof.
  intros Hkey Hq Haf Hlat Hok Hr Hr'.
  unfold serpapi_job, fetch_and_store_jobs, SEARCH_QUERY. rewrite <- Hkey, <- Hq.
  destruct (truthy (SERPAPI_KEY w)); simpl; [|done].
  unfold bind at 1 9. unfold requests_get. rewrite Hr, Hr', <- Hlat. simpl.
  match goal with
  | |- (let '(_, _) := ?a in _) = (let '(_, _) := ?b in _) => replace b with a; [done|]
  end.
  apply bind_ext; [done|]. intros data rt1.
  apply bind_ext; [done|]. intros results rt2.
  apply bind_ext; [done|]. intros items rt3.
  apply bind_ext; [by apply store_candidates_autoflush|]. intros saved rt4.
  apply bind_ext; [done|]. intros now rt5.
  apply bind_ext; [done|]. intros _ rt6.
  apply bind_ext; [|done]. unfold db_commit. by rewrite Hok.
Qed.

(** C7. A candidate without a title fails the whole cycle: the INSERT of
    its row violates NOT NULL, and the posting before it is lost with it. *)
Theorem absent_title_fails_the_cycle (af : bool) :
  serpapi_job (provider af [backend_posting; untitled_posting]) fresh =
  (Raised IntegrityError,
   {| tables := tables fresh; time := 102;
      sent := [the_request (provider af [backend_posting; untitled_posting])] |}).
Proof. destruct af; vm_compute; reflexivity. Qed.

(** Any candidate whose title is absent (or null) does so, when the stored
    titles are not NULL, as the schema has it. *)
Lemma untitled_candidate_fails (w : world) (p : process) items job c l :
  truthy (SERPAPI_KEY w) = true → candidates w = Some items →
  job ∈ items → candidate_key job = Some (None, c, l) →
  Forall (λ j, is_Some (title j)) (jobs (tables p)) →
  ∃ e, serpapi_job w p =
         (Raised e, {| tables := tables p; time := time p + latency w;
                       sent := sent p ++ [the_request w] |}).
Proof.
  intros Hkey Hc Hjob Hk Hschema.
  destruct (serpapi_job w p) as [o p'] eqn:Hrun.
  pose proof (cycle_not_committed _ _ _ _ Hrun) as Hno.
  destruct o as [[n|]|e].
  - exfalso. apply cycle_returned in Hrun
      as (_ & _ & items' & added & Hc' & _ & _ & _ & _ & [Hrows _ Hcov] & _).
    rewrite Hc in Hc'. injection Hc' as <-.
    destruct (Hcov _ Hjob) as (k & Hk' & Hin). rewrite Hk in Hk'. injection Hk' as <-.
    rewrite keys_app in Hin. rewrite Forall_forall in Hrows, Hschema.
    apply elem_of_app in Hin as [Hin|Hin];
      apply list_elem_of_fmap in Hin as (r & Hr & Hin).
    + destruct (Hschema _ Hin) as [t Ht]. unfold job_key in Hr. congruence.
    + destruct (Hrows _ Hin) as (_ & _ & _ & _ & [t Ht] & _).
      unfold job_key in Hr. congruence.
  - destruct Hno as [Hkey' _]. congruence.
  - destruct Hno as (_ & ? & ? & ?). exists e. destruct p'. simpl in *. congruence.
Qed.

(** X19. The mapping itself does not raise on an absent field: a dict whose
    [detected_extensions], if there, is a dict always yields an instance,
    and each absent field comes out as [None], which is bound as NULL. *)
Lemma mapping_accepts_absent_fields (fields : list (string * pyval)) :
  (∀ v, dict_lookup "detected_extensions" fields = Some v → ∃ ext, v = PDict ext) →
  ∃ inst, job_instance (PDict fields) = Returned inst ∧
    (dict_lookup "title" fields = None → kw_title inst = PNone) ∧
    (dict_lookup "company_name" fields = None → kw_company inst = PNone) ∧
    (dict_lookup "location" fields = None → kw_location inst = PNone) ∧
    (dict_lookup "description" fields = None → kw_description inst = PNone) ∧
    (dict_lookup "published_at" fields = None → kw_date_posted inst = PNone) ∧
    (dict_lookup "detected_extensions" fields = None → kw_url inst = PNone) ∧
    (∀ ext, dict_lookup "detected_extensions" fields = Some (PDict ext) →
            dict_lookup "link" ext = None → kw_url inst = PNone).
Proof.
  intros Hext. unfold job_instance. simpl.
  destruct (dict_lookup "detected_extensions" fields) as [v|] eqn:Hv; simpl.
  - destruct (Hext v eq_refl) as [ext ->]. simpl. eexists. split; [done|]. simpl.
    split_and!; try (by intros ->); try done. by intros ext' [= <-] ->.
  - eexists. split; [done|]. simpl. split_and!; try (by intros ->); done.
Qed.

(** The other fields may be absent: the row then has NULL there. *)
Lemma absent_fields_are_null (t : string) :
  ∃ i, serpapi_job (provider false [PDict [("title", PStr t)]]) fresh =
    (Returned (Some 1),
     {| tables :=
          {| jobs := [{| id := i; title := Some t; company := None; location := None;
                         description := None; url := None; date_posted := None;
                         created_at := 102 |}];
             scheduled_runs := [the_run (provider false [PDict [("title", PStr t)]]) fresh] |};
        time := 102;
        sent := [the_request (provider false [PDict [("title", PStr t)]])] |}).
Proof. exists 1. reflexivity. Qed.

(** C8. One unit of work: a cycle that returns has written its new
    listings and its run record together; a cycle that raises has written
    nothing at all; and when the database refuses the commit the cycle
    raises to [serpapi_job]'s caller, which has no handler of its own. *)
Theorem unit_of_work (w : world) (p : process) :
  (∀ n p', serpapi_job w p = (Returned (Some n), p') →
     commit_ok w = true ∧
     ∃ added, jobs (tables p') = jobs (tables p) ++ added ∧
              n = Z.of_nat (length added) ∧
              scheduled_runs (tables p') = scheduled_runs (tables p) ++ [the_run w p]) ∧
  (∀ e p', serpapi_job w p = (Raised e, p') → tables p' = tables p) ∧
  (truthy (SERPAPI_KEY w) = true → commit_ok w = false →
     ∃ e, serpapi_job w p =
            (Raised e, {| tables := tables p; time := time p + latency w;
                          sent := sent p ++ [the_request w] |})).
Proof.
  split_and!.
  - intros n p' (_ & Hok & items & added & _ & _ & _ & Hruns & Hjobs & _ & Hn)%cycle_returned.
    split; [done|]. by exists added.
  - intros e p' Hrun. by destruct (cycle_not_committed _ _ _ _ Hrun) as (_ & ? & _).
  - intros Hkey Hok. destruct (serpapi_job w p) as [o p'] eqn:Hrun.
    pose proof (cycle_not_committed _ _ _ _ Hrun) as Hno.
    destruct o as [[n|]|e].
    + apply cycle_returned in Hrun as (_ & Hok' & _). congruence.
    + destruct Hno as [Hkey' _]. congruence.
    + destruct Hno as (_ & ? & ? & ?). exists e. destruct p'. simpl in *. congruence.
Qed.

(** Two new postings and a database that refuses the commit. *)
Lemma unit_of_work_witness :
  ∃ e, serpapi_job (refusing true [backend_posting; analyst_posting]) fresh =
         (Raised e, {| tables := tables fresh; time := 102;
                       sent := [the_request (refusing true [backend_posting; analyst_posting])] |}).
Proof.
  apply (unit_of_work (refusing true [backend_posting; analyst_posting]) fresh); reflexivity.
Defined.


(** When the session autoflushes, duplicates inside one response collapse:
    if two or more candidates carry a key that no stored listing has, then
    after a cycle that runs to its commit exactly one listing carries that
    key. *)
Lemma response_duplicates_collapse (w : world) (p p' : process) (n : Z)
    (items : list pyval) (k : dedup_key) :
  autoflush w = true →
  serpapi_job w p = (Returned (Some n), p') →
  candidates w = Some items →
  (2 ≤ length (filter (λ job, candidate_key job = Some k) items))%nat →
  k ∉ keys (jobs (tables p)) →
  length (filter (λ r, job_key r = k) (jobs (tables p'))) = 1%nat.
Proof.
  intros Haf (_ & _ & items' & added & Hc & _ & _ & _ & -> & [_ Honce Hcov] & _)%cycle_returned.
  rewrite Hc. intros [= ->] Htwice Hfresh.
  destruct (Honce Haf) as [Hnd _].
  rewrite filter_app, length_app, (count_key_absent _ _ Hfresh). simpl.
  apply count_key_once; [done|].
  destruct (filter _ items) as [|job rest] eqn:Hf; [simpl in Htwice; lia|].
  assert (job ∈ filter (λ job, candidate_key job = Some k) items) as Hjob.
  { rewrite Hf. apply list_elem_of_here. }
  apply list_elem_of_filter in Hjob as [Hk Hjob].
  destruct (Hcov _ Hjob) as (k' & Hk' & Hin). rewrite Hk in Hk'. injection Hk' as <-.
  rewrite keys_app in Hin. by apply elem_of_app in Hin as [Hin|Hin].
Qed.

(** A posting and its reposting in one response, autoflush on. *)
Lemma response_duplicates_collapse_witness :
  length (filter (λ r, job_key r = (Some "Backend Engineer", Some "Acme", Some "Cape Town"))
                 (jobs (tables (serpapi_job
                    (provider true [backend_posting; backend_reposting]) fresh).2))) = 1%nat.
Proof.
  apply (response_duplicates_collapse
           (provider true [backend_posting; backend_reposting]) fresh _ 1
           [backend_posting; backend_reposting]).
  - reflexivity.
  - vm_compute. reflexivity.
  - reflexivity.
  - vm_compute. lia.
  - vm_compute. apply not_elem_of_nil.
Defined.

(** C10. The cycle at a response that carries a posting and a reposting of
    it (same title, company and location), with a session that does not
    autoflush and an empty store: the cycle returns 2 and the store holds
    two listings with that key. *)
Theorem response_duplicates_stay_without_autoflush :
  candidates (provider false [backend_posting; backend_reposting]) =
    Some [backend_posting; backend_reposting] ∧
  candidate_key backend_posting = Some (Some "Backend Engineer", Some "Acme", Some "Cape Town") ∧
  candidate_key backend_reposting = Some (Some "Backend Engineer", Some "Acme", Some "Cape Town") ∧
  (serpapi_job (provider false [backend_posting; backend_reposting]) fresh).1 =
    Returned (Some 2) ∧
  length (filter (λ r, job_key r = (Some "Backend Engineer", Some "Acme", Some "Cape Town"))
                 (jobs (tables (serpapi_job
                    (provider false [backend_posting; backend_reposting]) fresh).2))) = 2%nat.
Proof. split_and!; reflexivity. Qed.

(** * Further properties *)

(** ** The listing query: totals, pages, order *)

Lemma list_jobs_Some table args r :
  list_jobs table args = Some r →
  (0 ≤ (default 1 (arg_page args) - 1) * default 20 (arg_limit args))%Z ∧
  (0 ≤ default 20 (arg_limit args))%Z ∧
  data r = map item_of
             (take (Z.to_nat (default 20 (arg_limit args)))
                (drop (Z.to_nat ((default 1 (arg_page args) - 1) * default 20 (arg_limit args)))
                   (order_by_created_at_desc (selected table (arg_q args))))) ∧
  total r = Z.of_nat (length (selected table (arg_q args))) ∧
  page r = default 1 (arg_page args).
Proof.
  unfold list_jobs, selected.
  destruct (_ || _)%bool eqn:Hneg; [done|]. intros [= <-]. simpl.
  apply orb_false_iff in Hneg as [H1 H2]. split_and!; try done; lia.
Qed.

Lemma insert_desc_perm j l : insert_desc j l ≡ₚ j :: l.
Proof.
  induction l as [|j' l IH]; simpl; [done|].
  destruct (_ <=? _)%Z; [done|]. rewrite IH. apply Permutation_swap.
Qed.

Lemma order_by_perm l : order_by_created_at_desc l ≡ₚ l.
Proof.
  induction l as [|j l IH]; simpl; [done|].
  unfold order_by_created_at_desc in *. simpl. by rewrite insert_desc_perm, IH.
Qed.

Lemma insert_desc_sorted j l :
  StronglySorted newest_first l → StronglySorted newest_first (insert_desc j l).
Proof.
  induction 1 as [|j' l Hl IH Hall]; simpl.
  - repeat constructor.
  - destruct (Z.leb_spec (created_at j') (created_at j)) as [Hle|Hlt].
    + constructor; [by constructor|]. constructor; [done|].
      eapply Forall_impl; [exact Hall|]. unfold newest_first. simpl. lia.
    + constructor; [done|]. rewrite insert_desc_perm. constructor; [|done].
      unfold newest_first. lia.
Qed.

Lemma order_by_sorted l : StronglySorted newest_first (order_by_created_at_desc l).
Proof.
  induction l as [|j l IH]; [constructor|]. by apply insert_desc_sorted.
Qed.

Lemma StronglySorted_take {A} (R : A → A → Prop) n l :
  StronglySorted R l → StronglySorted R (take n l).
Proof.
  intros H. rewrite <- (take_drop n l) in H. by apply StronglySorted_app_1_l in H.
Qed.

Lemma StronglySorted_drop {A} (R : A → A → Prop) n l :
  StronglySorted R l → StronglySorted R (drop n l).
Proof.
  intros H. rewrite <- (take_drop n l) in H. by apply StronglySorted_app_1_r in H.
Qed.

Lemma selected_sublist table q : selected table q `sublist_of` table.
Proof.
  unfold selected. destruct (bool_decide _); [done|]. apply sublist_filter.
Qed.



(** X2. A page holds rows of the table, each at most once, all of them
    selected by the filter, newest first. *)
Theorem page_is_sorted_selection (table : list Job) (args : request_args) (r : listing) :
  list_jobs table args = Some r →
  ∃ rows, data r = map item_of rows ∧
          rows ⊆+ selected table (arg_q args) ∧
          rows ⊆+ table ∧
          StronglySorted newest_first rows.
Proof.
  intros (_ & _ & -> & _)%list_jobs_Some. eexists. split; [done|].
  assert (take (Z.to_nat (default 20 (arg_limit args)))
            (drop (Z.to_nat ((default 1 (arg_page args) - 1) * default 20 (arg_limit args)))
               (order_by_created_at_desc (selected table (arg_q args))))
          ⊆+ selected table (arg_q args)) as Hsub.
  { etrans; [apply submseteq_take|]. etrans; [apply submseteq_drop|].
    by rewrite order_by_perm. }
  split_and!; [done| |].
  - etrans; [exact Hsub|]. apply sublist_submseteq, selected_sublist.
  - apply StronglySorted_take, StronglySorted_drop, order_by_sorted.
Qed.

Lemma page_is_sorted_selection_witness :
  ∃ rows,
    page_items [listing_row 1 "Backend Engineer" 50; listing_row 2 "Data Analyst" 60]
               None 1 20 = map item_of rows ∧
    StronglySorted newest_first rows.
Proof.
  destruct (page_is_sorted_selection
              [listing_row 1 "Backend Engineer" 50; listing_row 2 "Data Analyst" 60]
              {| arg_q := None; arg_page := Some 1; arg_limit := Some 20 |}
              {| data := [item_of (listing_row 2 "Data Analyst" 60);
                          item_of (listing_row 1 "Backend Engineer" 50)];
                 total := 2; page := 1 |})
    as (rows & Hdata & _ & _ & Hsorted); [reflexivity|].
  exists rows. split; [exact Hdata|exact Hsorted].
Defined.

Lemma page_items_rows table q (k : nat) (L : Z) :
  (0 < L)%Z →
  page_items table q (Z.of_nat (S k)) L =
  map item_of (take (Z.to_nat L)
                 (drop (k * Z.to_nat L) (order_by_created_at_desc (selected table q)))).
Proof.
  intros HL. unfold page_items.
  destruct (list_jobs _ _) as [r|] eqn:Hr.
  - simpl. apply list_jobs_Some in Hr as (_ & _ & -> & _). simpl.
    replace (Z.to_nat ((Z.of_nat (S k) - 1) * L)) with (k * Z.to_nat L)%nat; [done|].
    rewrite Z2Nat.inj_mul by lia. f_equal. lia.
  - exfalso. unfold list_jobs in Hr. simpl in Hr.
    destruct (_ || _)%bool eqn:Hneg; [|done].
    apply orb_true_iff in Hneg as [H|H]; apply Z.ltb_lt in H; nia.
Qed.

Lemma pages_concat table q (L : Z) (n : nat) :
  (0 < L)%Z →
  concat (map (λ k, page_items table q (Z.of_nat k) L) (seq 1 n)) =
  map item_of (take (n * Z.to_nat L) (order_by_created_at_desc (selected table q))).
Proof.
  intros HL. induction n as [|n IH]; [done|].
  rewrite seq_S, map_app, concat_app, IH. simpl. rewrite app_nil_r.
  rewrite page_items_rows by done. rewrite <- map_app. f_equal.
  rewrite take_take_drop. f_equal. lia.
Qed.

(** Rows with pairwise different timestamps have one newest-first order. *)
Lemma newest_first_unique (rows l : list Job) :
  NoDup (map created_at rows) → l ≡ₚ rows → StronglySorted newest_first l →
  l = order_by_created_at_desc rows.
Proof.
  intros Hnd Hperm Hsorted.
  apply (StronglySorted_unique_strong newest_first); [|done|apply order_by_sorted|].
  - intros x1 x2 Hx1 Hx2 H12 H21. rewrite Hperm in Hx1. rewrite order_by_perm in Hx2.
    unfold newest_first in *.
    assert (created_at x1 = created_at x2) as Heq by lia.
    apply list_elem_of_lookup in Hx1 as [i1 Hi1]. apply list_elem_of_lookup in Hx2 as [i2 Hi2].
    assert (i1 = i2) as ->.
    { eapply NoDup_lookup; [exact Hnd| |].
      - by rewrite list_lookup_fmap, Hi1.
      - by rewrite list_lookup_fmap, Hi2, Heq. }
    congruence.
  - by rewrite order_by_perm.
Qed.

(** X3. Walking the pages 1 to [n] of size [L], with [n * L] no less than the
    number of matches, when no two matches have the same [created_at]:
    every selected listing is shown exactly once, and the pages put end to
    end are the selected listings in their one newest-first order. *)
Theorem pages_show_every_match_once (table : list Job) (q : option string)
    (L : Z) (n : nat) :
  (0 < L)%Z →
  (Z.of_nat (length (selected table q)) ≤ Z.of_nat n * L)%Z →
  NoDup (map created_at (selected table q)) →
  concat (map (λ k, page_items table q (Z.of_nat k) L) (seq 1 n)) ≡ₚ
    map item_of (selected table q) ∧
  ∀ rows, rows ≡ₚ selected table q → StronglySorted newest_first rows →
    concat (map (λ k, page_items table q (Z.of_nat k) L) (seq 1 n)) = map item_of rows.
Proof.
  intros HL Hn Hnd. rewrite pages_concat by done.
  rewrite take_ge by (rewrite order_by_perm; nia).
  split; [by rewrite order_by_perm|].
  intros rows Hperm Hsorted. by rewrite (newest_first_unique _ _ Hnd Hperm Hsorted).
Qed.

Lemma pages_show_every_match_once_witness :
  concat (map (λ k, page_items [listing_row 1 "Backend Engineer" 50;
                                listing_row 2 "Data Analyst" 60;
                                listing_row 3 "QA Tester" 55] None (Z.of_nat k) 2)
              (seq 1 2)) =
  map item_of [listing_row 2 "Data Analyst" 60; listing_row 3 "QA Tester" 55;
               listing_row 1 "Backend Engineer" 50].
Proof.
  apply (pages_show_every_match_once
           [listing_row 1 "Backend Engineer" 50; listing_row 2 "Data Analyst" 60;
            listing_row 3 "QA Tester" 55] None 2 2).
  - lia.
  - vm_compute. discriminate.
  - apply (bool_decide_unpack _). by vm_compute.
  - symmetry.
    exact (Permutation_cons_append
             [listing_row 2 "Data Analyst" 60; listing_row 3 "QA Tester" 55]
             (listing_row 1 "Backend Engineer" 50)).
  - repeat constructor; unfold newest_first; simpl; lia.
Defined.

(** ** The filter as a pattern *)











(** With a limit that takes the whole table, the first page holds all the
    selected rows. *)
Lemma whole_page table q (L : Z) r :
  list_jobs table {| arg_q := q; arg_page := None; arg_limit := Some L |} = Some r →
  (Z.of_nat (length table) ≤ L)%Z →
  data r = map item_of (order_by_created_at_desc (selected table q)) ∧
  total r = Z.of_nat (length (selected table q)).
Proof.
  intros (_ & _ & -> & -> & _)%list_jobs_Some HL. simpl. split; [|done].
  rewrite drop_0, take_ge; [done|].
  rewrite order_by_perm. pose proof (sublist_length _ _ (selected_sublist table q)). lia.
Qed.










(** X6. Without a query text, or with an empty one, nothing is filtered: the
    total is the size of the table and listings without a title are shown
    too. *)
Theorem empty_query_lists_everything (table : list Job) (q : option string) (L : Z)
    (r : listing) :
  list_jobs table {| arg_q := q; arg_page := None; arg_limit := Some L |} = Some r →
  (Z.of_nat (length table) ≤ L)%Z →
  default "" q = "" →
  total r = Z.of_nat (length table) ∧ data r ≡ₚ map item_of table.
Proof.
  intros Hr HL Hq. destruct (whole_page _ _ _ _ Hr HL) as [-> ->].
  unfold selected. rewrite Hq. simpl. split; [done|]. by rewrite order_by_perm.
Qed.

Lemma empty_query_lists_everything_witness :
  page_items [{| id := 7; title := None; company := None; location := None;
                 description := None; url := None; date_posted := None;
                 created_at := 3 |}] (Some "") 1 5 ≡ₚ
  map item_of [{| id := 7; title := None; company := None; location := None;
                  description := None; url := None; date_posted := None;
                  created_at := 3 |}].
Proof.
  eapply (empty_query_lists_everything _ (Some "") 5
            {| data := _; total := 1; page := 1 |}); [reflexivity|vm_compute; discriminate|done].
Defined.

(** ** The cycle: what it sends, what it appends, how it fails *)

Lemma cycle_returned_exact w p n p' :
  serpapi_job w p = (Returned (Some n), p') →
  ∃ added, p' = after_commit w p added ∧ n = Z.of_nat (length added).
Proof.
  intros (_ & _ & items & added & _ & Ht & Hs & Hr & Hj & _ & Hn)%cycle_returned.
  exists added. split; [|done]. unfold after_commit.
  destruct p' as [[js rs] t s]. simpl in *. by subst.
Qed.

Lemma cycle_raised_exact w p e p' :
  serpapi_job w p = (Raised e, p') →
  truthy (SERPAPI_KEY w) = true ∧ p' = after_failure w p.
Proof.
  intros Hrun. destruct (cycle_not_committed _ _ _ _ Hrun) as (Hkey & Ht & Hc & Hs).
  split; [done|]. unfold after_failure. destruct p'. simpl in *. by subst.
Qed.

Lemma cycle_skipped_exact w p p' :
  serpapi_job w p = (Returned None, p') → truthy (SERPAPI_KEY w) = false ∧ p' = p.
Proof. intros Hrun. exact (cycle_not_committed _ _ _ _ Hrun). Qed.

(** X7. A cycle only appends: the listings and the ledger it finds are the
    beginning of those it leaves; it adds at most one run record, with
    [success = 1] and [api_calls_made = 1], and no listing without one. *)
Theorem cycle_only_appends (w : world) (p : process) :
  ∃ added runs,
    jobs (tables (serpapi_job w p).2) = jobs (tables p) ++ added ∧
    scheduled_runs (tables (serpapi_job w p).2) = scheduled_runs (tables p) ++ runs ∧
    (runs = [] ∧ added = [] ∨
     ∃ run, runs = [run] ∧ success run = 1 ∧ api_calls_made run = 1).
Proof.
  destruct (serpapi_job w p) as [[[n|]|e] p'] eqn:Hrun; simpl.
  - apply cycle_returned_exact in Hrun as (added & -> & _).
    exists added, [the_run w p]. split_and!; try done. right. by exists (the_run w p).
  - apply cycle_skipped_exact in Hrun as [_ ->].
    exists [], []. rewrite !app_nil_r. split_and!; try done. by left.
  - apply cycle_raised_exact in Hrun as [_ ->].
    exists [], []. simpl. rewrite !app_nil_r. split_and!; try done. by left.
Qed.

(** X8. With a credential every cycle sends exactly one request, the same one,
    whether it then commits or raises; without a credential it sends
    none. *)
Theorem one_request_per_cycle (w : world) (p : process) :
  sent (serpapi_job w p).2 =
    sent p ++ (if truthy (SERPAPI_KEY w) then [the_request w] else []).
Proof.
  destruct (serpapi_job w p) as [[[n|]|e] p'] eqn:Hrun; simpl.
  - pose proof (cycle_returned _ _ _ _ Hrun) as (-> & _).
    by apply cycle_returned_exact in Hrun as (added & -> & _).
  - apply cycle_skipped_exact in Hrun as [-> ->]. by rewrite app_nil_r.
  - by apply cycle_raised_exact in Hrun as [-> ->].
Qed.

(** X9. When no list of candidates comes out of the reply the cycle raises the
    exception of the step that failed: [RequestException] without a reply,
    [JSONDecodeError] for a body that is not JSON, [AttributeError] for a
    body that is not an object, [TypeError] for a null [jobs_results]. *)
Theorem fetch_failure_exception (w : world) (p : process) :
  truthy (SERPAPI_KEY w) = true → candidates w = None →
  serpapi_job w p = (Raised (fetch_error w), after_failure w p).
Proof.
  intros Hkey Hc.
  destruct (serpapi_job w p) as [o p'] eqn:Hrun.
  assert (o = Raised (fetch_error w)) as ->.
  { unfold serpapi_job, fetch_and_store_jobs in Hrun. rewrite Hkey in Hrun.
    simpl in Hrun. unfold candidates in Hc. unfold fetch_error.
    unfold bind at 1 in Hrun. unfold requests_get in Hrun.
    destruct (reply w) as [|status [data|]]; simpl in Hrun;
      [by injection Hrun as <- _| |by injection Hrun as <- _].
    unfold bind at 1 in Hrun. simpl in Hrun. unfold bind at 1 in Hrun. simpl in Hrun.
    destruct (py_get data "jobs_results" (PList [])) as [results|e];
      [|by injection Hrun as <- _].
    unfold bind at 1 in Hrun. simpl in Hrun.
    destruct results; simpl in *; try done. by injection Hrun as <- _. }
  by apply cycle_raised_exact in Hrun as [_ ->].
Qed.

Lemma fetch_failure_exception_witness :
  serpapi_job
    {| SERPAPI_KEY := Some "secret"; JOB_SEARCH_QUERY := None; autoflush := false;
       reply := Reply 200 (Some (PDict [("jobs_results", PNone)]));
       latency := 2; commit_ok := true |} fresh =
  (Raised TypeError,
   after_failure
     {| SERPAPI_KEY := Some "secret"; JOB_SEARCH_QUERY := None; autoflush := false;
        reply := Reply 200 (Some (PDict [("jobs_results", PNone)]));
        latency := 2; commit_ok := true |} fresh).
Proof.
  apply (fetch_failure_exception
           {| SERPAPI_KEY := Some "secret"; JOB_SEARCH_QUERY := None; autoflush := false;
              reply := Reply 200 (Some (PDict [("jobs_results", PNone)]));
              latency := 2; commit_ok := true |} fresh); reflexivity.
Defined.

(** X10. One candidate that is not an object (a text, a list, a null), or
    whose title, company or location is a list or an object, fails the
    whole cycle: nothing of the response is stored, wherever in the response
    it stands. *)
Theorem malformed_candidate_fails_the_batch (w : world) (p : process)
    (items : list pyval) (job : pyval) :
  truthy (SERPAPI_KEY w) = true → candidates w = Some items →
  job ∈ items → candidate_key job = None →
  ∃ e, serpapi_job w p = (Raised e, after_failure w p).
Proof.
  intros Hkey Hc Hjob Hbad.
  destruct (serpapi_job w p) as [[[n|]|e] p'] eqn:Hrun.
  - exfalso. apply cycle_returned in Hrun
      as (_ & _ & items' & added & Hc' & _ & _ & _ & _ & [_ _ Hcov] & _).
    rewrite Hc in Hc'. injection Hc' as <-.
    destruct (Hcov _ Hjob) as (k & Hk & _). congruence.
  - apply cycle_skipped_exact in Hrun as [Hkey' _]. congruence.
  - apply cycle_raised_exact in Hrun as [_ ->]. eauto.
Qed.

Lemma malformed_candidate_fails_the_batch_witness :
  ∃ e, serpapi_job (provider true [backend_posting; PStr "oops"; analyst_posting]) fresh =
         (Raised e,
          after_failure (provider true [backend_posting; PStr "oops"; analyst_posting]) fresh).
Proof.
  apply (malformed_candidate_fails_the_batch
           (provider true [backend_posting; PStr "oops"; analyst_posting]) fresh
           [backend_posting; PStr "oops"; analyst_posting] (PStr "oops")).
  - reflexivity.
  - reflexivity.
  - apply list_elem_of_further, list_elem_of_here.
  - reflexivity.
Defined.

(** X11. The NOT NULL of [title] holds on: if every stored listing has a title,
    so has every listing after a cycle. *)
Theorem titles_stay_present (w : world) (p : process) :
  Forall (λ j, is_Some (title j)) (jobs (tables p)) →
  Forall (λ j, is_Some (title j)) (jobs (tables (serpapi_job w p).2)).
Proof.
  intros Hold. destruct (serpapi_job w p) as [[[n|]|e] p'] eqn:Hrun; simpl.
  - apply cycle_returned in Hrun
      as (_ & _ & items & added & _ & _ & _ & _ & -> & [Hrows _ _] & _).
    apply Forall_app. split; [done|]. eapply Forall_impl; [exact Hrows|].
    simpl. by intros r (_ & _ & _ & _ & Ht & _).
  - by apply cycle_skipped_exact in Hrun as [_ ->].
  - by apply cycle_raised_exact in Hrun as [_ ->].
Qed.

Lemma titles_stay_present_witness :
  Forall (λ j, is_Some (title j))
    (jobs (tables (serpapi_job (provider false [backend_posting; analyst_posting])
                     fresh).2)).
Proof.
  apply (titles_stay_present (provider false [backend_posting; analyst_posting]) fresh).
  vm_compute. constructor.
Defined.

(** ** A cycle that finds every candidate stored *)

Lemma find_key_is_Some k l : k ∈ keys l → is_Some (find (key_matches k) l).
Proof.
  intros Hk. destruct (find (key_matches k) l) eqn:Hf; [eauto|].
  by apply find_key_None in Hf.
Qed.

Lemma flush_nothing now s :
  new_jobs s = [] → new_runs s = [] → flush now s = (Returned (), s).
Proof.
  intros Hj Hr. unfold flush. rewrite Hj, Hr. simpl. rewrite !app_nil_r.
  destruct s. simpl in *. by subst.
Qed.

Lemma with_db_same rt : with_db (db rt) rt = rt.
Proof. by destruct rt. Qed.

Lemma store_candidate_hit w job saved rt k :
  candidate_key job = Some k → k ∈ keys (visible_jobs (db rt)) →
  new_jobs (db rt) = [] → new_runs (db rt) = [] →
  store_candidate w job saved rt = (Returned saved, rt).
Proof.
  intros Hk Hin Hj Hr. unfold candidate_key in Hk. unfold store_candidate, bind, lift.
  destruct (lookup_args job) as [[[t c] l]|]; [|done]. simpl.
  destruct (bind_text t) as [t'|] eqn:Ht; [|done].
  destruct (bind_text c) as [c'|] eqn:Hc; [|done].
  destruct (bind_text l) as [l'|] eqn:Hl; [|done].
  injection Hk as <-. unfold query_first_job, bind.
  assert ((if autoflush w then db_flush else ret ()) rt = (Returned (), rt)) as ->.
  { destruct (autoflush w); [|done]. unfold db_flush.
    by rewrite flush_nothing, with_db_same. }
  rewrite Ht, Hc, Hl. by destruct (find_key_is_Some _ _ Hin) as [j ->].
Qed.

Lemma store_candidates_hit w items : ∀ saved rt,
  (∀ job, job ∈ items →
     ∃ k, candidate_key job = Some k ∧ k ∈ keys (visible_jobs (db rt))) →
  new_jobs (db rt) = [] → new_runs (db rt) = [] →
  store_candidates w items saved rt = (Returned saved, rt).
Proof.
  induction items as [|job rest IH]; intros saved rt Hcov Hj Hr; [done|].
  simpl. unfold bind.
  destruct (Hcov job) as (k & Hk & Hin); [apply list_elem_of_here|].
  rewrite (store_candidate_hit _ _ _ _ _ Hk Hin Hj Hr).
  apply IH; [|done..]. intros job' Hjob'. apply Hcov. by apply list_elem_of_further.
Qed.

Lemma covered_cycle w p items :
  truthy (SERPAPI_KEY w) = true → candidates w = Some items → commit_ok w = true →
  (∀ job, job ∈ items →
     ∃ k, candidate_key job = Some k ∧ k ∈ keys (jobs (tables p))) →
  serpapi_job w p = (Returned (Some 0), after_commit w p []).
Proof.
  intros Hkey Hc Hok Hcov. unfold serpapi_job, fetch_and_store_jobs. rewrite Hkey. simpl.
  unfold candidates in Hc. unfold bind at 1. unfold requests_get.
  destruct (reply w) as [|status [data|]]; [done| |done].
  unfold bind at 1. simpl. unfold bind at 1. simpl.
  destruct (py_get data "jobs_results" (PList [])) as [results|]; [|done].
  unfold bind at 1. simpl. destruct (py_iter results) as [items'|]; [|done].
  injection Hc as ->. unfold bind at 1.
  rewrite store_candidates_hit; [|simpl; unfold visible_jobs; simpl;
                                   by setoid_rewrite app_nil_r|done..].
  unfold bind, utcnow, db_add_run, db_commit, bind, db_flush, flush. simpl.
  rewrite Hok. simpl. unfold after_commit, the_run, visible_jobs, visible_runs. simpl.
  by rewrite !app_nil_r.
Qed.

(** X12. A response without candidates (an empty [jobs_results], or none at
    all) is a cycle like any other: it returns zero, leaves the listings as
    they are and writes its run record. *)
Theorem empty_response_is_a_run (w : world) (p : process) :
  truthy (SERPAPI_KEY w) = true → candidates w = Some [] → commit_ok w = true →
  serpapi_job w p = (Returned (Some 0), after_commit w p []).
Proof.
  intros Hkey Hc Hok. apply (covered_cycle w p []); try done.
  intros job Hjob. by apply elem_of_nil in Hjob.
Qed.

Lemma empty_response_is_a_run_witness :
  serpapi_job
    {| SERPAPI_KEY := Some "secret"; JOB_SEARCH_QUERY := Some "data jobs";
       autoflush := true; reply := Reply 200 (Some (PDict [("search_metadata", PDict [])]));
       latency := 1; commit_ok := true |} fresh =
  (Returned (Some 0),
   after_commit
     {| SERPAPI_KEY := Some "secret"; JOB_SEARCH_QUERY := Some "data jobs";
        autoflush := true; reply := Reply 200 (Some (PDict [("search_metadata", PDict [])]));
        latency := 1; commit_ok := true |} fresh []).
Proof.
  apply (empty_response_is_a_run
           {| SERPAPI_KEY := Some "secret"; JOB_SEARCH_QUERY := Some "data jobs";
              autoflush := true;
              reply := Reply 200 (Some (PDict [("search_metadata", PDict [])]));
              latency := 1; commit_ok := true |} fresh); reflexivity.
Defined.

(** X13. After a cycle that committed, the next cycle against the same reply
    returns zero, leaves the listings as they are and adds one run record
    of its own. *)
Theorem refetch_adds_one_run (w : world) (p p1 : process) (n : Z) :
  serpapi_job w p = (Returned (Some n), p1) →
  serpapi_job w p1 = (Returned (Some 0), after_commit w p1 []).
Proof.
  intros Hrun. destruct (cycle_returned _ _ _ _ Hrun) as (Hkey & Hok & items & ? & Hc & _).
  apply (covered_cycle w p1 items); try done.
  by eapply returned_cycle_covers.
Qed.

Lemma refetch_adds_one_run_witness :
  serpapi_job (provider false [backend_posting; backend_reposting])
    (serpapi_job (provider false [backend_posting; backend_reposting]) fresh).2 =
  (Returned (Some 0),
   after_commit (provider false [backend_posting; backend_reposting])
     (serpapi_job (provider false [backend_posting; backend_reposting]) fresh).2 []).
Proof.
  apply (refetch_adds_one_run (provider false [backend_posting; backend_reposting])
           fresh _ 2).
  vm_compute. reflexivity.
Defined.

Lemma cycles_S n w p : cycles (S n) w p = (serpapi_job w (cycles n w p)).2.
Proof. reflexivity. Qed.

(** X14. Once a cycle has committed, any number of further cycles against the
    same reply keep the listings as that cycle left them and add one run
    record each. *)
Theorem later_cycles_only_add_runs (w : world) (p p1 : process) (n : Z) (k : nat) :
  serpapi_job w p = (Returned (Some n), p1) →
  jobs (tables (cycles k w p1)) = jobs (tables p1) ∧
  length (scheduled_runs (tables (cycles k w p1))) =
    (length (scheduled_runs (tables p1)) + k)%nat ∧
  length (sent (cycles k w p1)) = (length (sent p1) + k)%nat.
Proof.
  intros Hrun. destruct (cycle_returned _ _ _ _ Hrun) as (Hkey & Hok & items & ? & Hc & _).
  pose proof (returned_cycle_covers _ _ _ _ _ Hrun Hc) as Hcov.
  induction k as [|k (IHj & IHr & IHs)]; [simpl; split_and!; [done|lia..]|].
  rewrite cycles_S, (covered_cycle w _ items); try done.
  - simpl. rewrite app_nil_r, !length_app, IHj, IHr, IHs. simpl. split_and!; [done|lia..].
  - by rewrite IHj.
Qed.

Lemma later_cycles_only_add_runs_witness :
  length (scheduled_runs (tables
    (cycles 3 (provider true [backend_posting])
       (serpapi_job (provider true [backend_posting]) fresh).2))) = 4%nat.
Proof.
  destruct (later_cycles_only_add_runs (provider true [backend_posting]) fresh
              (serpapi_job (provider true [backend_posting]) fresh).2 1 3)
    as (_ & Hruns & _); [vm_compute; reflexivity|].
  exact Hruns.
Defined.

(** ** Which candidates get a row *)

Lemma store_candidate_admits w job saved rt n rt' :
  store_candidate w job saved rt = (Returned n, rt') →
  clock rt' = clock rt ∧
  (autoflush w = false → visible_jobs (db rt') = visible_jobs (db rt)) ∧
  ∃ k, candidate_key job = Some k ∧
    ∀ W', settled (clock rt) (db rt') = Some W' →
      ∃ W, settled (clock rt) (db rt) = Some W ∧
        ((k ∈ (if autoflush w then keys W else keys (visible_jobs (db rt))) ∧
          W' = W ∧ n = saved) ∨
         ((k ∉ (if autoflush w then keys W else keys (visible_jobs (db rt)))) ∧
          ∃ r, W' = W ++ [r] ∧ job_key r = k ∧ n = saved + 1)).
Proof.
  intros ([[t c] l] & rt0 & [Ha ->]%lift_returned & H)%bind_returned.
  apply bind_returned in H as (o & rt1 & Hq & H). simpl in Hq.
  apply query_first_job_returned in Hq as (k & Ht & Hc & Hl & -> & Hclk & Hreq & Hfl).
  assert (candidate_key job = Some k) as Hk.
  { unfold candidate_key. rewrite Ha, Ht, Hc, Hl. by destruct k as [[??]?]. }
  assert ((autoflush w = false → visible_jobs (db rt1) = visible_jobs (db rt)) ∧
          ∀ W, settled (clock rt) (db rt1) = Some W →
            settled (clock rt) (db rt) = Some W ∧
            (if autoflush w then keys W else keys (visible_jobs (db rt))) =
              keys (visible_jobs (db rt1))) as [Hvis Hset].
  { destruct Hfl as [[Haf ->]|[Haf Hfl]]; rewrite Haf.
    - split; [done|]. by intros W HW.
    - split; [done|]. pose proof (flush_returned _ _ _ Hfl) as (_ & _ & Hs & Hs').
      intros W HW. rewrite Hs' in HW. injection HW as <-. done. }
  destruct (find _ _) as [j|] eqn:Hfind.
  - injection H as <- <-. split_and!; try done.
    exists k. split; [done|]. intros W' HW'.
    destruct (Hset _ HW') as [HW Hseen]. exists W'. split; [done|]. left.
    rewrite Hseen. split_and!; try done. by eapply find_key_Some.
  - apply bind_returned in H as (inst & rt2 & [Hinst ->]%lift_returned & H).
    apply bind_returned in H as ([] & rt3 & Hadd & H).
    injection H as <- <-. unfold db_add_job in Hadd. injection Hadd as <-. simpl.
    split_and!; try done.
    exists k. split; [done|]. intros W' HW'.
    apply settled_add in HW' as (W & r & HW & Hr & ->).
    destruct (Hset _ HW) as [HW0 Hseen]. exists W. split; [done|]. right.
    rewrite Hseen. split; [by apply find_key_None|]. exists r. split_and!; try done.
    pose proof (insert_job_row _ _ _ _ Hr) as (Ht' & Hc' & Hl' & _).
    pose proof (lookup_args_instance _ _ _ _ Ha _ Hinst) as (Et & Ec & El).
    rewrite Et in Ht'. rewrite Ec in Hc'. rewrite El in Hl'.
    unfold job_key. destruct k as [[??]?]. simpl in *. congruence.
Qed.

Lemma store_candidates_admit w results : ∀ saved rt n rt',
  store_candidates w results saved rt = (Returned n, rt') →
  ∀ W', settled (clock rt) (db rt') = Some W' →
    ∃ W added, settled (clock rt) (db rt) = Some W ∧ W' = W ++ added ∧
      keys added =
        admitted (autoflush w)
          (if autoflush w then keys W else keys (visible_jobs (db rt)))
          (omap candidate_key results).
Proof.
  induction results as [|job rest IH]; intros saved rt n rt' H W' HW'; simpl in H.
  - injection H as <- <-. exists W', []. by rewrite app_nil_r.
  - apply bind_returned in H as (n1 & rt1 & Hstep & Hloop).
    apply store_candidate_admits in Hstep as (Hclk & Hvis & k & Hk & Hstep).
    rewrite <- Hclk in HW'.
    destruct (IH _ _ _ _ Hloop _ HW') as (W1 & added & HW1 & -> & Hadded).
    rewrite Hclk in HW1. destruct (Hstep _ HW1) as (W & HW & Hcase).
    simpl. rewrite Hk. simpl.
    destruct Hcase as [(Hseen & -> & _)|(Hseen & r & -> & Hr & _)].
    + exists W, added. split_and!; try done.
      rewrite decide_True by done. rewrite Hadded.
      destruct (autoflush w); [done|]. by rewrite Hvis.
    + exists W, (r :: added). rewrite <- app_assoc. split_and!; try done.
      rewrite decide_False by done. simpl. rewrite Hr. f_equal. rewrite Hadded.
      destruct (autoflush w).
      * rewrite keys_app. change (keys [r]) with [job_key r]. by rewrite Hr.
      * by rewrite Hvis.
Qed.

Lemma cycle_admits (w : world) (p p' : process) (n : Z) (items : list pyval) :
  serpapi_job w p = (Returned (Some n), p') → candidates w = Some items →
  ∃ added,
    jobs (tables p') = jobs (tables p) ++ added ∧
    keys added = admitted (autoflush w) (keys (jobs (tables p)))
                          (omap candidate_key items) ∧
    n = Z.of_nat (length added).
Proof.
  intros Hrun Hc.
  destruct (cycle_returned_exact _ _ _ _ Hrun) as (added & Hp' & Hn).
  destruct (cycle_returned_loop _ _ _ _ Hrun) as (items' & rt' & Hc' & Hloop & Hset).
  rewrite Hc in Hc'. injection Hc' as <-.
  destruct (store_candidates_admit _ _ _ _ _ _ Hloop _ Hset)
    as (W & added' & HW & HW' & Hkeys).
  unfold settled, visible_jobs in HW. simpl in HW. injection HW as <-.
  rewrite !app_nil_r in *. unfold visible_jobs in Hkeys. simpl in Hkeys.
  rewrite app_nil_r in Hkeys.
  assert (added' = added) as ->.
  { rewrite Hp' in HW'. simpl in HW'. by apply app_inv_head in HW'. }
  exists added. rewrite Hp'. simpl. split_and!; try done.
  rewrite Hkeys. by destruct (autoflush w).
Qed.

(** X15. Which candidates get a row: going through the response in its order,
    a candidate is passed over when its key is stored already, and, when
    the session autoflushes, also when an earlier candidate of the response
    had it; every other candidate gets a row, in the order of the response;
    the number logged is the number of rows. *)
Theorem inserted_keys (w : world) (p p' : process) (n : Z) (items : list pyval) :
  serpapi_job w p = (Returned (Some n), p') → candidates w = Some items →
  ∃ added,
    jobs (tables p') = jobs (tables p) ++ added ∧
    keys added = admitted (autoflush w) (keys (jobs (tables p)))
                          (omap candidate_key items) ∧
    n = Z.of_nat (length added).
Proof. apply cycle_admits. Qed.

Lemma inserted_keys_witness :
  ∃ added,
    jobs (tables (serpapi_job
      (provider true [backend_posting; analyst_posting; backend_reposting]) fresh).2) =
      jobs (tables fresh) ++ added ∧
    keys added = [(Some "Backend Engineer", Some "Acme", Some "Cape Town");
                  (Some "Data Analyst", Some "Umoja", Some "Durban")].
Proof.
  destruct (inserted_keys
              (provider true [backend_posting; analyst_posting; backend_reposting]) fresh
              (serpapi_job
                 (provider true [backend_posting; analyst_posting; backend_reposting])
                 fresh).2 2
              [backend_posting; analyst_posting; backend_reposting])
    as (added & Hjobs & Hkeys & _); [vm_compute; reflexivity|reflexivity|].
  exists added. split; [exact Hjobs|]. rewrite Hkeys. vm_compute. reflexivity.
Defined.

Lemma admitted_seen_ext af ks : ∀ seen1 seen2,
  (∀ k, k ∈ ks → k ∈ seen1 ↔ k ∈ seen2) →
  admitted af seen1 ks = admitted af seen2 ks.
Proof.
  induction ks as [|k rest IH]; intros seen1 seen2 Hsame; [done|]. simpl.
  assert (k ∈ seen1 ↔ k ∈ seen2) as Hk by (apply Hsame, list_elem_of_here).
  assert (∀ k', k' ∈ rest → k' ∈ seen1 ↔ k' ∈ seen2) as Hrest
    by (intros k' Hk'; by apply Hsame, list_elem_of_further).
  destruct (decide (k ∈ seen1)) as [H1|H1].
  - rewrite decide_True by (by apply Hk). by apply IH.
  - rewrite decide_False by (by rewrite <- Hk). f_equal. apply IH.
    intros k' Hk'. destruct af; [|by apply Hrest].
    rewrite !elem_of_app. by rewrite (Hrest _ Hk').
Qed.

Lemma admitted_without_repeats ks : ∀ seen,
  NoDup ks → admitted true seen ks = admitted false seen ks.
Proof.
  induction ks as [|k rest IH]; intros seen Hnd; [done|]. simpl.
  apply NoDup_cons in Hnd as [Hk Hnd].
  destruct (decide (k ∈ seen)); [by apply IH|]. f_equal.
  rewrite IH by done. apply admitted_seen_ext.
  intros k' Hk'. rewrite elem_of_app, list_elem_of_singleton.
  split; [|by left]. intros [? | ->]; done.
Qed.

(** X16. The session's autoflush setting matters only for responses that carry
    a key more than once: when the candidates' keys are all different, two
    cycles from the same store over the same candidates, whatever the
    setting of each, store the same keys and log the same number. *)
Theorem autoflush_matters_only_for_repeats (w w' : world) (p p1 p2 : process)
    (n n' : Z) (items : list pyval) :
  candidates w = Some items → candidates w' = Some items →
  NoDup (omap candidate_key items) →
  serpapi_job w p = (Returned (Some n), p1) →
  serpapi_job w' p = (Returned (Some n'), p2) →
  keys (jobs (tables p1)) = keys (jobs (tables p2)) ∧ n = n'.
Proof.
  intros Hc Hc' Hnd Hrun Hrun'.
  destruct (cycle_admits _ _ _ _ _ Hrun Hc) as (added & -> & Hkeys & ->).
  destruct (cycle_admits _ _ _ _ _ Hrun' Hc') as (added' & -> & Hkeys' & ->).
  assert (keys added = keys added') as Heq.
  { rewrite Hkeys, Hkeys'.
    destruct (autoflush w), (autoflush w'); try done;
      by rewrite admitted_without_repeats. }
  rewrite !keys_app, Heq. split; [done|].
  apply (f_equal length) in Heq. unfold keys in Heq. rewrite !length_map in Heq. lia.
Qed.

Lemma autoflush_matters_only_for_repeats_witness :
  keys (jobs (tables (serpapi_job (provider true [backend_posting; analyst_posting])
                        fresh).2)) =
  keys (jobs (tables (serpapi_job (provider false [backend_posting; analyst_posting])
                        fresh).2)).
Proof.
  apply (autoflush_matters_only_for_repeats
           (provider true [backend_posting; analyst_posting])
           (provider false [backend_posting; analyst_posting]) fresh _ _ 2 2
           [backend_posting; analyst_posting]).
  - reflexivity.
  - reflexivity.
  - vm_compute. repeat constructor; rewrite ?list_elem_of_singleton;
      try apply not_elem_of_nil; discriminate.
  - vm_compute. reflexivity.
  - vm_compute. reflexivity.
Defined.

(** ** The dedup-key invariant without repeats *)

Lemma admitted_elem_of af ks : ∀ seen k, k ∈ admitted af seen ks → k ∈ ks.
Proof.
  induction ks as [|k' rest IH]; intros seen k; simpl; [done|].
  destruct (decide (k' ∈ seen)).
  - intros H%IH. by apply list_elem_of_further.
  - intros [-> | H%IH]%elem_of_cons; [apply list_elem_of_here|by apply list_elem_of_further].
Qed.

Lemma admitted_NoDup af ks : ∀ seen,
  af = true ∨ NoDup ks → NoDup seen → NoDup (seen ++ admitted af seen ks).
Proof.
  induction ks as [|k rest IH]; intros seen Hcase Hseen; simpl.
  - by rewrite app_nil_r.
  - assert (af = true ∨ NoDup rest) as Hrest.
    { destruct Hcase as [?|[_ ?]%NoDup_cons]; eauto. }
    destruct (decide (k ∈ seen)) as [Hk|Hk]; [by apply IH|].
    destruct af.
    + rewrite cons_middle, (assoc_L (++)). apply IH; [done|].
      apply NoDup_app. split_and!; [done| |apply NoDup_singleton].
      intros x Hx ->%list_elem_of_singleton. done.
    + destruct Hcase as [?|[Hfresh _]%NoDup_cons]; [done|].
      rewrite <- Permutation_middle. apply NoDup_cons. split; [|by apply IH].
      rewrite elem_of_app. intros [?|?%admitted_elem_of]; done.
Qed.

(** A cycle preserves the dedup-key invariant when its session autoflushes,
    and also, whatever the session, when no two candidates of the response
    have the same key. *)
Lemma distinct_keys_keep_the_invariant (w : world) (p : process) :
  autoflush w = true ∨
    (∀ items, candidates w = Some items → NoDup (omap candidate_key items)) →
  NoDup (keys (jobs (tables p))) →
  NoDup (keys (jobs (tables (serpapi_job w p).2))).
Proof.
  intros Hcase Hnd. destruct (serpapi_job w p) as [[[n|]|e] p'] eqn:Hrun; simpl.
  - destruct (cycle_returned _ _ _ _ Hrun) as (_ & _ & items & _ & Hc & _).
    destruct (cycle_admits _ _ _ _ _ Hrun Hc) as (added & -> & Hkeys & _).
    rewrite keys_app, Hkeys. apply admitted_NoDup; [|done].
    destruct Hcase as [?|Hcase]; [by left|right; by apply Hcase].
  - by apply cycle_skipped_exact in Hrun as [_ ->].
  - by apply cycle_raised_exact in Hrun as [_ ->].
Qed.

(** ** The repository's unit of work *)

Lemma keeps_repository_list_all w skip limit : keeps (repository_list_all w skip limit).
Proof.
  unfold repository_list_all. apply keeps_bind.
  - destruct (autoflush w); auto with keeps.
  - intros _. by intros rt x rt' [= <- <-].
Qed.

(** X20. The scope is all or nothing for a block that does not commit on its
    own: either the block returns and the commit goes through, and the
    listings are those pending at the end of the block, written; or the
    scope raises, the block's exception or the commit's, and the tables are
    as before. *)
Theorem session_scope_all_or_nothing {A} (w : world) (body : M A) (p : process) :
  keeps body →
  (∃ a rt1 W,
     body {| clock := time p; requests_sent := sent p; db := SessionLocal (tables p) |} =
       (Returned a, rt1) ∧
     settled (time p) (db rt1) = Some W ∧ commit_ok w = true ∧
     (session_scope w body p).1 = Returned a ∧
     jobs (tables (session_scope w body p).2) = W) ∨
  (∃ e, session_scope w body p = (Raised e, p)).
Proof.
  intros Hkeeps. unfold session_scope.
  destruct (body _) as [[a|e] rt1] eqn:Hbody;
    destruct (Hkeeps _ _ _ Hbody) as (Hst & Hclk & Hreq); simpl in *.
  - destruct (db_commit w rt1) as [[[]|e] rt2] eqn:Hcommit.
    + left. apply db_commit_returned in Hcommit as (Hok & Hclk2 & Hreq2 & s & Hfl & Hdb).
      exists a, rt1. destruct (flush_returned _ _ _ Hfl) as (_ & _ & Hs & _).
      rewrite Hclk in Hs. eexists. split_and!; try done. simpl. by rewrite Hdb.
    + right. exists e.
      destruct (atomic_db_commit _ _ _ _ Hcommit) as (Hclk2 & Hreq2 & Hst2). simpl.
      rewrite (Hst2 eq_refl), Hst, Hclk2, Hclk, Hreq2, Hreq. by destruct p.
  - right. exists e. simpl. rewrite Hst, Hclk, Hreq. by destruct p.
Qed.

Lemma session_scope_all_or_nothing_witness :
  ∃ e, session_scope (provider true [])
         (do_ repository_add {| kw_title := PStr "Clerk"; kw_company := PNone;
                                kw_location := PNone; kw_description := PNone;
                                kw_url := PNone; kw_date_posted := PNone |};
          raise (A:=unit) TypeError) fresh = (Raised e, fresh).
Proof.
  destruct (session_scope_all_or_nothing (provider true [])
              (do_ repository_add {| kw_title := PStr "Clerk"; kw_company := PNone;
                                     kw_location := PNone; kw_description := PNone;
                                     kw_url := PNone; kw_date_posted := PNone |};
               raise (A:=unit) TypeError) fresh) as [(a & rt1 & W & Hbody & _)|H].
  - unfold repository_add. keeps_binds.
  - by vm_compute in Hbody.
  - exact H.
Defined.

Lemma db_commit_clean w c rs d :
  commit_ok w = true →
  db_commit w {| clock := c; requests_sent := rs; db := SessionLocal d |} =
  (Returned (), {| clock := c; requests_sent := rs; db := SessionLocal d |}).
Proof.
  intros Hok. unfold db_commit, bind, db_flush, flush. simpl. rewrite Hok.
  unfold with_db, visible_jobs, visible_runs. simpl. rewrite !app_nil_r. by destruct d.
Qed.

(** X21. What is added in one scope is listed in the next: after a scope around
    [add] has returned, the table is the old one with one more row, which
    carries the entity's fields and a title, and [list_all] from the start
    with a limit that takes the table returns these rows and changes
    nothing. *)
Theorem added_entity_is_listed (w : world) (entity : JobInstance) (p p1 : process)
    (limit : nat) :
  session_scope w (repository_add entity) p = (Returned (), p1) →
  (length (jobs (tables p)) < limit)%nat →
  ∃ r, jobs (tables p1) = jobs (tables p) ++ [r] ∧
       bind_text (kw_title entity) = Some (title r) ∧ is_Some (title r) ∧
       bind_text (kw_company entity) = Some (company r) ∧
       bind_text (kw_location entity) = Some (location r) ∧
       bind_text (kw_description entity) = Some (description r) ∧
       bind_text (kw_url entity) = Some (url r) ∧
       bind_text (kw_date_posted entity) = Some (date_posted r) ∧
       session_scope w (repository_list_all w 0 limit) p1 =
         (Returned (jobs (tables p) ++ [r]), p1).
Proof.
  unfold session_scope at 1, repository_add, db_add_job. simpl.
  destruct (db_commit w _) as [[[]|e] rt2] eqn:Hcommit; [|done].
  intros [= <-] Hlimit.
  apply db_commit_returned in Hcommit as (Hok & Hclk & Hreq & s & Hfl & Hdb).
  simpl in *. unfold flush, visible_jobs in Hfl. simpl in Hfl.
  rewrite app_nil_r in Hfl.
  destruct (insert_job (time p) (jobs (tables p)) entity) as [r|] eqn:Hr; [|done].
  simpl in Hfl. injection Hfl as <-. rewrite Hdb. simpl.
  unfold visible_jobs, visible_runs. simpl.
  pose proof (insert_job_row _ _ _ _ Hr) as (Ht & Hc & Hl & Hd & Hu & Hdp & Htitle & _).
  exists r. split_and!; try done.
  unfold session_scope, repository_list_all, bind. simpl.
  assert (∀ rt : runtime, new_jobs (db rt) = [] → new_runs (db rt) = [] →
            (if autoflush w then db_flush else ret ()) rt = (Returned (), rt)) as Hflush.
  { intros rt Hj Hn. destruct (autoflush w); [|done]. unfold db_flush.
    by rewrite flush_nothing, with_db_same. }
  rewrite Hflush by done. simpl. rewrite db_commit_clean by done. simpl.
  unfold visible_jobs. simpl. rewrite !app_nil_r, drop_0.
  rewrite take_ge by (rewrite length_app; simpl; lia). done.
Qed.

Lemma added_entity_is_listed_witness :
  ∃ r, jobs (tables (session_scope (provider false [])
                       (repository_add {| kw_title := PStr "Clerk"; kw_company := PNone;
                                          kw_location := PNone; kw_description := PNone;
                                          kw_url := PNone; kw_date_posted := PNone |})
                       fresh).2) = [r] ∧ title r = Some "Clerk".
Proof.
  destruct (added_entity_is_listed (provider false [])
              {| kw_title := PStr "Clerk"; kw_company := PNone;
                 kw_location := PNone; kw_description := PNone;
                 kw_url := PNone; kw_date_posted := PNone |}
              fresh
              (session_scope (provider false [])
                 (repository_add {| kw_title := PStr "Clerk"; kw_company := PNone;
                                    kw_location := PNone; kw_description := PNone;
                                    kw_url := PNone; kw_date_posted := PNone |})
                 fresh).2 5)
    as (r & Hjobs & Ht & _); [reflexivity|simpl; lia|].
  exists r. split; [exact Hjobs|]. simpl in Ht. congruence.
Defined.

(** X22. Inside one scope, whether [list_all] sees what [add] has just queued
    depends on the session: an autoflushing session writes the row before
    it reads, any other lists the table as it was; the commit at the end of
    the scope stores the row in both cases. *)
Theorem listing_inside_the_scope (w : world) (entity : JobInstance) (p : process)
    (r : Job) (limit : nat) :
  insert_job (time p) (jobs (tables p)) entity = Returned r →
  commit_ok w = true → (length (jobs (tables p)) < limit)%nat →
  (session_scope w (do_ repository_add entity; repository_list_all w 0 limit) p).1 =
    Returned (if autoflush w then jobs (tables p) ++ [r] else jobs (tables p)) ∧
  jobs (tables (session_scope w (do_ repository_add entity;
                                 repository_list_all w 0 limit) p).2) =
    jobs (tables p) ++ [r].
Proof.
  intros Hr Hok Hlimit.
  unfold session_scope, repository_add, repository_list_all, db_add_job, bind. simpl.
  destruct (autoflush w); simpl.
  - unfold db_flush, flush, visible_jobs. simpl. rewrite ?app_nil_r, Hr. simpl.
    unfold db_commit, bind, db_flush, flush. simpl. rewrite Hok. simpl.
    unfold visible_jobs. simpl. rewrite ?app_nil_r, drop_0.
    rewrite take_ge by (rewrite length_app; simpl; lia). done.
  - unfold db_commit, bind, db_flush, flush, visible_jobs. simpl.
    rewrite ?app_nil_r, Hr. simpl. rewrite Hok. simpl.
    unfold visible_jobs. simpl. rewrite ?app_nil_r, drop_0, take_ge by lia. done.
Qed.

Lemma listing_inside_the_scope_witness :
  (session_scope (provider false [])
     (do_ repository_add {| kw_title := PStr "Clerk"; kw_company := PNone;
                            kw_location := PNone; kw_description := PNone;
                            kw_url := PNone; kw_date_posted := PNone |};
      repository_list_all (provider false []) 0 10) fresh).1 = Returned [].
Proof.
  eapply (listing_inside_the_scope (provider false []) _ fresh _ 10).
  - reflexivity.
  - reflexivity.
  - simpl. lia.
Defined.

(** ** Clock, status, absent fields *)

(** X17. What a cycle does depends on the listings it finds and on the world,
    not on the clock, the ledger or the requests sent before: from two
    states with the same listings it returns or raises the same, and leaves
    the same listings up to their timestamps. *)
Theorem cycle_ignores_clock_and_ledger (w : world) (p1 p2 : process) :
  jobs (tables p1) = jobs (tables p2) →
  (serpapi_job w p1).1 = (serpapi_job w p2).1 ∧
  map untimed (jobs (tables (serpapi_job w p1).2)) =
  map untimed (jobs (tables (serpapi_job w p2).2)).
Proof.
  intros Ht. unfold serpapi_job.
  pose proof (similar_fetch_and_store_jobs w
    {| clock := time p1; requests_sent := sent p1; db := SessionLocal (tables p1) |}
    {| clock := time p2; requests_sent := sent p2; db := SessionLocal (tables p2) |}) as H.
  destruct (fetch_and_store_jobs w _) as [o1 r1], (fetch_and_store_jobs w _) as [o2 r2].
  simpl. destruct H as [(Hst & _ & _) H].
  - split_and!; simpl; try done. by rewrite Ht.
  - simpl in *. split; [|done]. destruct o1, o2; try done; congruence.
Qed.

Lemma cycle_ignores_clock_and_ledger_witness :
  (serpapi_job (provider true [backend_posting]) fresh).1 =
  (serpapi_job (provider true [backend_posting])
     {| tables := {| jobs := [];
                     scheduled_runs := [{| run_id := 9; run_time := 5;
                                           api_calls_made := 1; success := 1 |}] |};
        time := 777; sent := [] |}).1.
Proof.
  apply (cycle_ignores_clock_and_ledger (provider true [backend_posting]) fresh
           {| tables := {| jobs := [];
                           scheduled_runs := [{| run_id := 9; run_time := 5;
                                                 api_calls_made := 1; success := 1 |}] |};
              time := 777; sent := [] |}).
  reflexivity.
Defined.

(** A 200 and a 500 with the same body are one to the cycle. *)
Lemma status_is_not_inspected_witness :
  serpapi_job (provider true [backend_posting]) fresh =
  serpapi_job
    {| SERPAPI_KEY := Some "secret"; JOB_SEARCH_QUERY := None; autoflush := true;
       reply := Reply 500 (Some (PDict [("jobs_results", PList [backend_posting])]));
       latency := 2; commit_ok := true |} fresh.
Proof.
  apply (status_is_not_inspected (provider true [backend_posting])
           {| SERPAPI_KEY := Some "secret"; JOB_SEARCH_QUERY := None; autoflush := true;
              reply := Reply 500 (Some (PDict [("jobs_results", PList [backend_posting])]));
              latency := 2; commit_ok := true |}
           200 500 (Some (PDict [("jobs_results", PList [backend_posting])])) fresh);
    reflexivity.
Defined.

(** A candidate with nothing but a title. *)
Lemma mapping_accepts_absent_fields_witness :
  ∃ inst, job_instance (PDict [("title", PStr "Clerk")]) = Returned inst ∧
          kw_company inst = PNone ∧ kw_url inst = PNone.
Proof.
  destruct (mapping_accepts_absent_fields [("title", PStr "Clerk")])
    as (inst & Hinst & _ & Hc & _ & _ & _ & Hu & _); [done|].
  exists inst. split_and!; [exact Hinst|by apply Hc|by apply Hu].
Defined.
